(** * The Microsoft SQL Server integration of the budibase server

    A shallow embedding of
    [packages/server/src/integrations/microsoftSqlServer.ts]:
    the module-level function [internalQuery] and the class
    [SqlServerIntegration] ([constructor], [connect], [runSQL],
    [buildSchema], [read], [create], [update], [delete], [query]).

    The JavaScript of the file is sequential code over a mutable
    integration object and a database driver ([mssql]); it is embedded as
    explicit state passing with exceptions: a computation takes the state
    and either returns a value or throws, in both cases with the state it
    left behind.

    The handlers [save] and [trigger] of
    [packages/server/src/api/controllers/webhook.js] are embedded the same
    way, over the Koa context and the services they call. *)

From Stdlib Require Import ZArith String Ascii List DecimalString DecimalZ
  DecimalPos.
From stdpp Require Import base option gmap strings list fin_maps.

Open Scope string_scope.

(** ** JavaScript values, as far as the integration looks at them *)

Module Js.

(** The values found in the rows the driver returns and in the bindings of
    a query.  Numbers are the integers of the metadata views (the
    [COLUMNPROPERTY] flags); no float is looked at by the code. *)
Inductive JsVal : Type :=
| JUndefined
| JNull
| JBool (b : bool)
| JNum (n : Z)
| JStr (s : string).

#[global] Instance JsVal_eq_dec : EqDecision JsVal.
Proof. solve_decision. Defined.

(** [a === b] on these values. *)
Definition strict_eq (a b : JsVal) : bool := bool_decide (a = b).

(** ToBoolean: what [!!v], [a || b] and [c ? x : y] test. *)
Definition truthy (v : JsVal) : bool :=
  match v with
  | JUndefined | JNull => false
  | JBool b => b
  | JNum n => negb (n =? 0)%Z
  | JStr s => negb (String.eqb s "")
  end.

(** ToString: what a template literal and a property key do to a value. *)
Definition ToString (v : JsVal) : string :=
  match v with
  | JUndefined => "undefined"
  | JNull => "null"
  | JBool true => "true"
  | JBool false => "false"
  | JNum n => NilZero.string_of_int (Z.to_int n)
  | JStr s => s
  end.

(** A plain object whose properties hold such values: a row of a
    recordset, or the marker [{ created: true }]. *)
Abbreviation Obj := (gmap string JsVal).

(** [o.k]: a missing property reads as [undefined]. *)
Definition prop (o : Obj) (k : string) : JsVal := default JUndefined (o !! k).

(** [o[key] = v] for an object [v], on an object [o] that [{}] made and
    that only such assignments have changed; the map holds the own
    properties of [o].  Every key names a new or an existing own data
    property but one: ["__proto__"] is an accessor that [o] inherits from
    [Object.prototype], and assigning an object to it makes that object
    the prototype of [o] and leaves the own properties as they were. *)
Definition assign {V : Type} (key : string) (v : V) (o : gmap string V)
  : gmap string V :=
  if String.eqb key "__proto__" then o else <[ key := v ]> o.

(** [a || b] for [a] an array or [undefined]: an array is truthy, also an
    empty one. *)
Definition or_array (a : option (list Obj)) (b : list Obj) : list Obj :=
  match a with
  | Some rows => rows
  | None => b
  end.

(** [l.find(p)]: the first element that satisfies [p], or [undefined]. *)
Definition array_find (p : JsVal -> bool) (l : list JsVal) : JsVal :=
  default JUndefined (List.find p l).

(** [l.indexOf(x) === -1] for an array of strings [l]. *)
Definition indexOf_is_minus_one (l : list string) (x : JsVal) : bool :=
  negb (existsb (fun y => strict_eq (JStr y) x) l).

(** What a [throw] carries: a string ([throw "..."]) or an error object,
    of which the code reads the name and the message only.  The built-in
    [Error] has the name ["Error"]; the driver's errors have names of
    their own ([ConnectionError], [RequestError], ...), and so has the
    engine's [TypeError]. *)
Inductive JsThrown : Type :=
| ThrowString (s : string)
| ThrowError (name message : string).

#[global] Instance JsThrown_eq_dec : EqDecision JsThrown.
Proof. solve_decision. Defined.

(** [Error.prototype.toString]. *)
Definition Error_toString (name message : string) : string :=
  if String.eqb name "" then message
  else if String.eqb message "" then name
  else name +:+ ": " +:+ message.

(** [String(err)] of a thrown value. *)
Definition String_of (err : JsThrown) : string :=
  match err with
  | ThrowString s => s
  | ThrowError name message => Error_toString name message
  end.

(** [new Error(err)]: a built-in [Error] whose message is [String(err)]. *)
Definition new_Error (err : JsThrown) : JsThrown :=
  ThrowError "Error" (String_of err).

(** The message an error object carries ([undefined] for a thrown string). *)
Definition message_of (err : JsThrown) : option string :=
  match err with
  | ThrowString _ => None
  | ThrowError _ message => Some message
  end.

(** [typeof e]-independent test: is the thrown value a built-in [Error]? *)
Definition is_builtin_Error (err : JsThrown) : bool :=
  match err with
  | ThrowError name _ => String.eqb name "Error"
  | ThrowString _ => false
  end.

(** The [TypeError] of calling a method of [undefined].  Its message is the
    engine's wording. *)
Definition TypeError_undefined (what : string) : JsThrown :=
  ThrowError "TypeError"
    ("Cannot read properties of undefined (reading '" +:+ what +:+ "')").

(** The [TypeError] of iterating [undefined] with [for ... of]. *)
Definition TypeError_not_iterable (what : string) : JsThrown :=
  ThrowError "TypeError" (what +:+ " is not iterable").

(** [needle] occurs in [text]. *)
Fixpoint includes (needle text : string) : bool :=
  String.prefix needle text
  || match text with
     | EmptyString => false
     | String _ rest => includes needle rest
     end.

End Js.
Import Js.

(** ** Computations that change a state and may throw *)

Module Eff.

Inductive Outcome (S A : Type) : Type :=
| Returned (a : A) (s : S)
| Threw (e : JsThrown) (s : S).
Arguments Returned {S A} a s.
Arguments Threw {S A} e s.

Definition M (S A : Type) : Type := S -> Outcome S A.

Definition ret {S A} (a : A) : M S A := fun s => Returned a s.

Definition bind {S A B} (m : M S A) (k : A -> M S B) : M S B :=
  fun s =>
    match m s with
    | Returned a s' => k a s'
    | Threw e s' => Threw e s'
    end.

Definition throw {S A} (e : JsThrown) : M S A := fun s => Threw e s.

(** [try { m } catch (err) { h err }]. *)
Definition try_catch {S A} (m : M S A) (h : JsThrown -> M S A) : M S A :=
  fun s =>
    match m s with
    | Returned a s' => Returned a s'
    | Threw e s' => h e s'
    end.

Definition gets {S A} (f : S -> A) : M S A := fun s => Returned (f s) s.

Definition modify {S} (f : S -> S) : M S unit := fun s => Returned tt (f s).

(** [for (let x of l) { acc = body acc x }], stopping at the first throw. *)
Fixpoint for_of {S A B} (l : list A) (body : B -> A -> M S B) (acc : B)
  : M S B :=
  match l with
  | [] => ret acc
  | x :: rest => bind (body acc x) (fun acc' => for_of rest body acc')
  end.

(** The state the computation ends in, whichever way it ends. *)
Definition final_state {S A} (o : Outcome S A) : S :=
  match o with Returned _ s => s | Threw _ s => s end.

(** The value returned, if the computation returned. *)
Definition returned {S A} (o : Outcome S A) : option A :=
  match o with Returned a _ => Some a | Threw _ _ => None end.

(** The value thrown, if the computation threw. *)
Definition thrown {S A} (o : Outcome S A) : option JsThrown :=
  match o with Returned _ _ => None | Threw e _ => Some e end.

End Eff.
Import Eff.

#[global] Instance M_ret {S} : MRet (M S) := fun _ a => ret a.
#[global] Instance M_bind {S} : MBind (M S) := fun _ _ k m => bind m k.

(** ** The data of the integration *)

(** [MSSQLConfig]. *)
Record MSSQLConfig : Type := {
  user : string;
  password : string;
  server : string;
  port : Z;
  database : string;
  encrypt : option bool
}.

(** The [options] of the driver's configuration. *)
Record ClientOptions : Type := {
  options_encrypt : option bool;
  enableArithAbort : bool
}.

(** [clientCfg] of the constructor: the configuration without [encrypt],
    with [options]. *)
Record ClientCfg : Type := {
  cfg_user : string;
  cfg_password : string;
  cfg_server : string;
  cfg_port : Z;
  cfg_database : string;
  options : ClientOptions
}.

(** A [sqlServer.ConnectionPool] object.  [pool_id] is its identity: the
    number of pools the process had constructed before it. *)
Record ConnectionPool : Type := {
  pool_id : nat;
  pool_cfg : ClientCfg
}.

(** [SqlQuery]: the text and, when it is an array, the bindings. *)
Record SqlQuery : Type := {
  sql : string;
  bindings : option (list JsVal)
}.

(** A [Request] of the driver: the pool it was made from and the
    parameters declared on it by [request.input], oldest first. *)
Record Request : Type := {
  req_pool : ConnectionPool;
  parameters : list (string * JsVal)
}.

(** What [request.query] resolves to; the code reads [recordset] only,
    which is [undefined] when the statement produced no result set. *)
Record Response : Type := {
  recordset : option (list Obj)
}.

(** An entry of a [TableSchema]. *)
Module Column.
Record t : Type := {
  autocolumn : bool;
  name : string;
  type : string
}.
End Column.

(** A [Table] as [buildSchema] makes it; [schema] holds the own
    properties of its schema object. *)
Module Table.
Record t : Type := {
  _id : string;
  primary : list JsVal;
  name : JsVal;
  schema : gmap string Column.t
}.
End Table.

(** What [finaliseExternalTables] returns. *)
Record FinalTables : Type := {
  final_tables : gmap string Table.t;
  final_errors : gmap string string
}.

(** ** The driver

    The [mssql] package is not part of the repository.  It is a parameter:
    for a type [DB] of states of the engine, what [pool.connect()] does and
    what [request.query(sql)] does.  Both take and return the engine's
    state, so that a statement may change what the next one sees, and both
    may throw. *)
Class Driver (DB : Type) : Type := {
  (** [pool.connect()]: resolves to the pool itself ([None]) or rejects. *)
  pool_connect : ConnectionPool -> DB -> option JsThrown * DB;
  (** [request.query(sql)]: rejects or resolves to a response. *)
  request_query : Request -> string -> DB -> (JsThrown + Response) * DB
}.

(** The process as the driver sees it: the engine, every
    [(request, text)] handed to [request.query] so far (oldest first), and
    the pools constructed so far (oldest first). *)
Record World (DB : Type) : Type := {
  db : DB;
  sent : list (Request * string);
  pools : list ConnectionPool
}.
Arguments db {DB} _.
Arguments sent {DB} _.
Arguments pools {DB} _.

(** ** The helpers imported from files outside this one *)

(** The enum [Operation] of [../definitions/datasource] and the helpers
    [getSqlQuery], [buildExternalTableId], [convertSqlType] and
    [finaliseExternalTables] of [./utils] are imported by the file and are
    not part of it: they are parameters of the development, functions of
    their arguments that return.  [tableName] and [def.DATA_TYPE] reach
    them as the driver gave them, whatever their type; of the two table
    sets [finaliseExternalTables] gets the own properties. *)
Class Utils : Type := {
  Operation_CREATE : string;
  getSqlQuery : SqlQuery + string -> SqlQuery;
  buildExternalTableId : string -> JsVal -> string;
  convertSqlType : JsVal -> string;
  finaliseExternalTables :
    gmap string Table.t -> gmap string Table.t -> FinalTables
}.

(** ** [internalQuery] *)

Section InternalQuery.
Context {DB : Type} `{!Driver DB} `{!Utils}.

(** [client.request()]: a new request with no parameter.  [client] is
    [undefined] until [connect] has stored one. *)
Definition client_request (client : option ConnectionPool) : M (World DB) Request :=
  match client with
  | None => throw (TypeError_undefined "request")
  | Some p => mret {| req_pool := p; parameters := [] |}
  end.

(** [request.input(name, value)]. *)
Definition input (request : Request) (name : string) (value : JsVal)
  : Request :=
  {| req_pool := req_pool request;
     parameters := parameters request ++ [(name, value)] |}.

(** The loop of lines 90-93: [request.input(`p${count++}`, binding)] for
    each binding in turn. *)
Fixpoint input_bindings (request : Request) (bs : list JsVal) (count : nat)
  : Request :=
  match bs with
  | [] => request
  | binding :: rest =>
      input_bindings
        (input request ("p" +:+ ToString (JNum (Z.of_nat count))) binding)
        rest (S count)
  end.

(** [await request.query(sql)]: the text goes to the engine. *)
Definition query_request (request : Request) (text : string)
  : M (World DB) Response :=
  fun w =>
    let '(r, db') := request_query request text (db w) in
    let w' := {| db := db'; sent := sent w ++ [(request, text)];
                 pools := pools w |} in
    match r with
    | inl err => Threw err w'
    | inr response => Returned response w'
    end.

(** The text [internalQuery] sends (lines 97-100). *)
Definition sent_text (query : SqlQuery) (operation : option string) : string :=
  if bool_decide (operation = Some Operation_CREATE)
  then sql query +:+ "; SELECT SCOPE_IDENTITY() AS id;"
  else sql query.

(** Lines 89-94: the bindings, when they are an array, are declared on the
    request. *)
Definition declare_bindings (request : Request) (query : SqlQuery) : Request :=
  match bindings query with
  | Some bs => input_bindings request bs 0
  | None => request
  end.

Definition internalQuery (client : option ConnectionPool) (query : SqlQuery)
    (operation : option string) : M (World DB) Response :=
  request ← client_request client;
  try_catch
    (let request := declare_bindings request query in
     query_request request (sent_text query operation))
    (fun err => throw (new_Error err)).

End InternalQuery.

(** ** The class [SqlServerIntegration] *)

Module MSSQLModule.

(** The fields of an instance.  [pool] and [client] are [undefined] until
    assigned.  The class also declares [static pool], a property of the
    constructor function; no line of the file reads or writes it. *)
Record SqlServerIntegration : Type := {
  config : MSSQLConfig;
  pool : option ConnectionPool;
  client : option ConnectionPool;
  tables : gmap string Table.t;
  schemaErrors : gmap string string
}.

Definition MASTER_TABLES : list string :=
  [ "spt_fallback_db";
    "spt_fallback_dev";
    "spt_fallback_usg";
    "spt_monitor";
    "MSreplication_options" ].

Definition TABLES_SQL : string :=
  "SELECT * FROM INFORMATION_SCHEMA.TABLES WHERE TABLE_TYPE='BASE TABLE'".

(** The line feed of the template literals. *)
Definition LF : string := String "010" "".

Definition getDefinitionSQL (tableName : JsVal) : string :=
  "select *" +:+ LF
  +:+ "              from INFORMATION_SCHEMA.COLUMNS" +:+ LF
  +:+ "              where TABLE_NAME='" +:+ ToString tableName +:+ "'".

Definition getConstraintsSQL (tableName : JsVal) : string :=
  "SELECT * FROM INFORMATION_SCHEMA.TABLE_CONSTRAINTS AS TC " +:+ LF
  +:+ "              INNER JOIN INFORMATION_SCHEMA.KEY_COLUMN_USAGE AS KU" +:+ LF
  +:+ "                ON TC.CONSTRAINT_TYPE = 'PRIMARY KEY' " +:+ LF
  +:+ "                AND TC.CONSTRAINT_NAME = KU.CONSTRAINT_NAME " +:+ LF
  +:+ "                AND KU.table_name='" +:+ ToString tableName +:+ "'" +:+ LF
  +:+ "              ORDER BY " +:+ LF
  +:+ "                KU.TABLE_NAME," +:+ LF
  +:+ "                KU.ORDINAL_POSITION;".

Definition getAutoColumnsSQL (tableName : JsVal) : string :=
  "SELECT " +:+ LF
  +:+ "              COLUMNPROPERTY(OBJECT_ID(TABLE_SCHEMA+'.'+TABLE_NAME),COLUMN_NAME,'IsComputed') " +:+ LF
  +:+ "                AS IS_COMPUTED," +:+ LF
  +:+ "              COLUMNPROPERTY(object_id(TABLE_SCHEMA+'.'+TABLE_NAME), COLUMN_NAME, 'IsIdentity')" +:+ LF
  +:+ "                AS IS_IDENTITY," +:+ LF
  +:+ "              *" +:+ LF
  +:+ "              FROM INFORMATION_SCHEMA.COLUMNS" +:+ LF
  +:+ "              WHERE TABLE_NAME='" +:+ ToString tableName +:+ "'".

(** [clientCfg] of the constructor (lines 155-162). *)
Definition clientCfg_of (cfg : MSSQLConfig) : ClientCfg :=
  {| cfg_user := user cfg;
     cfg_password := password cfg;
     cfg_server := server cfg;
     cfg_port := port cfg;
     cfg_database := database cfg;
     options := {| options_encrypt := encrypt cfg;
                   enableArithAbort := true |} |}.

Section Class.
Context {DB : Type} `{!Driver DB} `{!Utils}.

(** The running process: one integration object and the world. *)
Record Process : Type := {
  this : SqlServerIntegration;
  world : World DB
}.

(** A computation of [internalQuery] run by a method of the object. *)
Definition in_world {A} (m : M (World DB) A) : M Process A :=
  fun p =>
    match m (world p) with
    | Returned a w => Returned a {| this := this p; world := w |}
    | Threw e w => Threw e {| this := this p; world := w |}
    end.

(** [new sqlServer.ConnectionPool(clientCfg)]. *)
Definition new_ConnectionPool (cfg : ClientCfg) (w : World DB)
  : ConnectionPool * World DB :=
  let p := {| pool_id := length (pools w); pool_cfg := cfg |} in
  (p, {| db := db w; sent := sent w; pools := pools w ++ [p] |}).

(** The object as [super(SqlClients.MS_SQL)], the field initialisers and
    [this.config = config] leave it: it has no property [pool]. *)
Definition fresh_instance (cfg : MSSQLConfig) : SqlServerIntegration :=
  {| config := cfg; pool := None; client := None;
     tables := ∅; schemaErrors := ∅ |}.

(** [new SqlServerIntegration(config)] (lines 152-166).  [this.pool] is
    looked up on the instance. *)
Definition constructor (cfg : MSSQLConfig) (w : World DB)
  : SqlServerIntegration * World DB :=
  let this := fresh_instance cfg in
  let clientCfg := clientCfg_of (config this) in
  match pool this with
  | None =>
      let '(p, w') := new_ConnectionPool clientCfg w in
      ({| config := config this; pool := Some p; client := client this;
          tables := tables this; schemaErrors := schemaErrors this |}, w')
  | Some _ => (this, w)
  end.

Definition set_client (c : ConnectionPool) (o : SqlServerIntegration)
  : SqlServerIntegration :=
  {| config := config o; pool := pool o; client := Some c;
     tables := tables o; schemaErrors := schemaErrors o |}.

(** [await this.pool.connect()]. *)
Definition await_pool_connect : M Process ConnectionPool :=
  fun p =>
    match pool (this p) with
    | None => Threw (TypeError_undefined "connect") p
    | Some pl =>
        let '(r, db') := pool_connect pl (db (world p)) in
        let p' := {| this := this p;
                     world := {| db := db'; sent := sent (world p);
                                 pools := pools (world p) |} |} in
        match r with
        | Some err => Threw err p'
        | None => Returned pl p'
        end
    end.

Definition connect : M Process unit :=
  try_catch
    (c ← await_pool_connect;
     modify (fun p => {| this := set_client c (this p); world := world p |}))
    (fun err => throw (new_Error err)).

Definition runSQL (text : string) : M Process (option (list Obj)) :=
  c ← gets (fun p => client (this p));
  response ← in_world (internalQuery c (getSqlQuery (inr text)) None);
  mret (recordset response).

(** Lines 192-194: the names of the catalog's rows that are not in
    [MASTER_TABLES]. *)
Definition candidate_names (records : list Obj) : list JsVal :=
  List.filter (indexOf_is_minus_one MASTER_TABLES)
    (List.map (fun record => prop record "TABLE_NAME") records).

(** Lines 204-208. *)
Definition primaryKeys_of (constraints : list Obj) : list JsVal :=
  List.map (fun constraint => prop constraint "COLUMN_NAME")
    (List.filter
       (fun constraint =>
          strict_eq (prop constraint "CONSTRAINT_TYPE") (JStr "PRIMARY KEY"))
       constraints).

(** Lines 209-211. *)
Definition autoColumns_of (columns : list Obj) : list JsVal :=
  List.map (fun col => prop col "COLUMN_NAME")
    (List.filter
       (fun col => truthy (prop col "IS_COMPUTED")
                   || truthy (prop col "IS_IDENTITY"))
       columns).

(** The body of the loop of lines 214-226, for one [def]:
    [schema[name] = { autocolumn: ..., name: name, type }] when [name] is a
    string.  The map holds the own properties of [schema]. *)
Definition schema_step (autoColumns : list JsVal)
    (schema : gmap string Column.t) (def : Obj) : gmap string Column.t :=
  match prop def "COLUMN_NAME" with
  | JStr name =>
      let type := convertSqlType (prop def "DATA_TYPE") in
      assign name
        {| Column.autocolumn :=
             truthy (array_find (fun col => strict_eq col (JStr name))
                                autoColumns);
           Column.name := name;
           Column.type := type |}
        schema
  | _ => schema
  end.

(** Lines 213-226. *)
Definition schema_of (definition : list Obj) (autoColumns : list JsVal)
  : gmap string Column.t :=
  fold_left (schema_step autoColumns) definition ∅.

(** What the loop body does with the result of [runSQL], which is
    [undefined] when the statement gave no result set: [constraints.filter]
    and [columns.filter] call a method of it, [for (let def of definition)]
    iterates it. *)
Definition array_or_throw {S A} (err : JsThrown) (a : option A) : M S A :=
  match a with
  | Some x => mret x
  | None => throw err
  end.

(** The body of the loop of lines 197-233, for one [tableName]; it ends
    with [tables[tableName] = { _id: ..., primary: primaryKeys,
    name: tableName, schema }].  The map holds the own properties of
    [tables]. *)
Definition buildSchema_table (datasourceId : string)
    (tables : gmap string Table.t) (tableName : JsVal)
  : M Process (gmap string Table.t) :=
  definition ← runSQL (getDefinitionSQL tableName);
  constraints ← runSQL (getConstraintsSQL tableName);
  columns ← runSQL (getAutoColumnsSQL tableName);
  constraints ← array_or_throw (TypeError_undefined "filter") constraints;
  let primaryKeys := primaryKeys_of constraints in
  columns ← array_or_throw (TypeError_undefined "filter") columns;
  let autoColumns := autoColumns_of columns in
  definition ← array_or_throw (TypeError_not_iterable "definition") definition;
  let schema := schema_of definition autoColumns in
  mret (assign (ToString tableName)
          {| Table._id := buildExternalTableId datasourceId tableName;
             Table.primary := primaryKeys;
             Table.name := tableName;
             Table.schema := schema |}
          tables).

(** Lines 196-233: the freshly introspected tables. *)
Definition buildSchema_tables (datasourceId : string) (tableNames : list JsVal)
  : M Process (gmap string Table.t) :=
  for_of tableNames (buildSchema_table datasourceId) ∅.

Definition set_final (final : FinalTables) (o : SqlServerIntegration)
  : SqlServerIntegration :=
  {| config := config o; pool := pool o; client := client o;
     tables := final_tables final; schemaErrors := final_errors final |}.

Definition buildSchema (datasourceId : string) (entities : gmap string Table.t)
  : M Process unit :=
  connect;;
  tableNames ← runSQL TABLES_SQL;
  match tableNames with
  | None => throw (ThrowString "Unable to get list of tables in database")
  | Some records =>
      let tableNames := candidate_names records in
      tables ← buildSchema_tables datasourceId tableNames;
      let final := finaliseExternalTables tables entities in
      modify (fun p => {| this := set_final final (this p); world := world p |})
  end.

Definition read (query : SqlQuery + string) : M Process (option (list Obj)) :=
  connect;;
  c ← gets (fun p => client (this p));
  response ← in_world (internalQuery c (getSqlQuery query) None);
  mret (recordset response).

Definition create (query : SqlQuery + string) : M Process (list Obj) :=
  connect;;
  c ← gets (fun p => client (this p));
  response ← in_world (internalQuery c (getSqlQuery query) None);
  mret (or_array (recordset response) [ {[ "created" := JBool true ]} ]).

Definition update (query : SqlQuery + string) : M Process (list Obj) :=
  connect;;
  c ← gets (fun p => client (this p));
  response ← in_world (internalQuery c (getSqlQuery query) None);
  mret (or_array (recordset response) [ {[ "updated" := JBool true ]} ]).

Definition delete (query : SqlQuery + string) : M Process (list Obj) :=
  connect;;
  c ← gets (fun p => client (this p));
  response ← in_world (internalQuery c (getSqlQuery query) None);
  mret (or_array (recordset response) [ {[ "deleted" := JBool true ]} ]).

(** [queryFn] of [query] (lines 266-267). *)
Definition queryFn (query : SqlQuery) (op : string) : M Process Response :=
  c ← gets (fun p => client (this p));
  in_world (internalQuery c query (Some op)).

(** [processFn] of [query] (lines 268-269), [operation] being what
    [this._operation(json)] returned. *)
Definition processFn (operation : string) (result : Response) : list Obj :=
  match recordset result with
  | Some rows => rows
  | None => [ {[ operation := JBool true ]} ]
  end.

(** [query] (lines 263-271).  [_operation] and [queryWithReturning] are
    inherited from [./base/sql], which is not part of the file: they are
    arguments here. *)
Definition query {QueryJson Result : Type}
    (_operation : QueryJson -> string)
    (queryWithReturning :
       QueryJson -> (SqlQuery -> string -> M Process Response) ->
       (Response -> list Obj) -> M Process Result)
    (json : QueryJson) : M Process Result :=
  connect;;
  let operation := _operation json in
  queryWithReturning json queryFn (processFn operation).

End Class.
Arguments Process DB : clear implicits.

End MSSQLModule.
Import MSSQLModule.

(** ** An engine and helpers to run the model on

    The theorems below hold for every driver and every implementation of
    the imported helpers.  To evaluate the model on examples, here is one
    of each: a small engine with a catalog of tables, and stand-ins for the
    helpers of [./utils]. *)

Module Sample.

(** A table of the sample engine: its columns with their native type and
    identity flag, its primary key, and whether its metadata can be read. *)
Record EngineTable : Type := {
  et_name : string;
  et_columns : list (string * string * bool);
  et_primary : list string;
  et_readable : bool
}.

(** The sample engine: a catalog, which may be unreadable as a whole. *)
Record Engine : Type := {
  catalog : list EngineTable;
  catalog_readable : bool
}.

Definition row (l : list (string * JsVal)) : Obj := list_to_map l.

Definition flag (b : bool) : JsVal := JNum (if b then 1 else 0).

Definition definition_rows (t : EngineTable) : list Obj :=
  List.map (fun '(c, ty, _) =>
              row [("TABLE_NAME", JStr (et_name t)); ("COLUMN_NAME", JStr c);
                   ("DATA_TYPE", JStr ty)])
           (et_columns t).

Definition constraint_rows (t : EngineTable) : list Obj :=
  List.map (fun c =>
              row [("CONSTRAINT_TYPE", JStr "PRIMARY KEY");
                   ("TABLE_NAME", JStr (et_name t)); ("COLUMN_NAME", JStr c)])
           (et_primary t).

Definition autocolumn_rows (t : EngineTable) : list Obj :=
  List.map (fun '(c, ty, identity) =>
              row [("IS_COMPUTED", flag false); ("IS_IDENTITY", flag identity);
                   ("TABLE_NAME", JStr (et_name t)); ("COLUMN_NAME", JStr c);
                   ("DATA_TYPE", JStr ty)])
           (et_columns t).

Definition RequestError (message : string) : JsThrown :=
  ThrowError "RequestError" message.

Definition rows (l : list Obj) : JsThrown + Response :=
  inr {| recordset := Some l |}.

Definition no_recordset : JsThrown + Response :=
  inr {| recordset := None |}.

(** The answer of the engine to a metadata statement about the table [t],
    if [text] is one. *)
Definition metadata_answer (text : string) (t : EngineTable)
  : option (JsThrown + Response) :=
  let n := JStr (et_name t) in
  let guard (r : list Obj) :=
    if et_readable t then rows r
    else inl (RequestError ("Invalid object name '" +:+ et_name t +:+ "'.")) in
  if String.eqb text (getDefinitionSQL n) then Some (guard (definition_rows t))
  else if String.eqb text (getConstraintsSQL n)
       then Some (guard (constraint_rows t))
  else if String.eqb text (getAutoColumnsSQL n)
       then Some (guard (autocolumn_rows t))
  else None.

Fixpoint first_answer (text : string) (ts : list EngineTable)
  : option (JsThrown + Response) :=
  match ts with
  | [] => None
  | t :: rest =>
      match metadata_answer text t with
      | Some a => Some a
      | None => first_answer text rest
      end
  end.

(** The statements the sample engine knows, besides the metadata ones. *)
Definition insert_order : string :=
  "INSERT INTO orders (total) VALUES (@p0)".
Definition update_no_match : string :=
  "UPDATE orders SET total = @p0 OUTPUT INSERTED.id WHERE id = @p1".
Definition select_missing : string :=
  "SELECT * FROM missing".

(** The rows of [INFORMATION_SCHEMA.TABLES]. *)
Definition catalog_rows (e : Engine) : list Obj :=
  List.map (fun t => row [("TABLE_NAME", JStr (et_name t));
                          ("TABLE_TYPE", JStr "BASE TABLE")])
           (catalog e).

Definition answer (text : string) (e : Engine) : JsThrown + Response :=
  if String.eqb text TABLES_SQL then
    if catalog_readable e then rows (catalog_rows e) else no_recordset
  else match first_answer text (catalog e) with
       | Some a => a
       | None =>
           if String.eqb text insert_order then no_recordset
           else if String.eqb text
                     (insert_order +:+ "; SELECT SCOPE_IDENTITY() AS id;")
                then rows [row [("id", JNum 1)]]
           else if String.eqb text update_no_match then rows []
           else if String.eqb text select_missing
                then inl (RequestError "Invalid object name 'missing'.")
           else rows []
       end.

Definition driver : Driver Engine :=
  {| pool_connect := fun p e =>
       if String.eqb (cfg_server (pool_cfg p)) "unreachable"
       then (Some (ThrowError "ConnectionError"
                     "Failed to connect to unreachable:1433"), e)
       else (None, e);
     request_query := fun _ text e => (answer text e, e) |}.

(** Stand-ins for the helpers of [./utils]. *)
Definition utils : Utils :=
  {| Operation_CREATE := "CREATE";
     getSqlQuery := fun q =>
       match q with
       | inl q => q
       | inr text => {| sql := text; bindings := None |}
       end;
     buildExternalTableId := fun datasourceId tableName =>
       datasourceId +:+ "__" +:+ ToString tableName;
     convertSqlType := fun t =>
       if bool_decide (t = JStr "int") || bool_decide (t = JStr "decimal")
       then "number" else "string";
     finaliseExternalTables := fun tables _ =>
       {| final_tables := tables; final_errors := ∅ |} |}.

Definition orders : EngineTable :=
  {| et_name := "orders";
     et_columns := [("id", "int", true); ("total", "decimal", false)];
     et_primary := ["id"];
     et_readable := true |}.

Definition customers : EngineTable :=
  {| et_name := "customers";
     et_columns := [("id", "int", true); ("name", "nvarchar", false)];
     et_primary := ["id"];
     et_readable := true |}.

(** A table whose metadata statements the engine rejects. *)
Definition locked : EngineTable :=
  {| et_name := "locked";
     et_columns := [("id", "int", true)];
     et_primary := ["id"];
     et_readable := false |}.

Definition spt_monitor : EngineTable :=
  {| et_name := "spt_monitor";
     et_columns := [("lastrun", "datetime", false)];
     et_primary := [];
     et_readable := true |}.

Definition config_of (host : string) : MSSQLConfig :=
  {| user := "sa"; password := "secret"; server := host; port := 1433;
     database := "shop"; encrypt := Some true |}.

Definition world_of (e : Engine) : World Engine :=
  {| db := e; sent := []; pools := [] |}.

(** The process after [new SqlServerIntegration(config_of host)]. *)
Definition process_of (host : string) (e : Engine) : Process Engine :=
  let '(o, w) := constructor (config_of host) (world_of e) in
  {| this := o; world := w |}.

Definition healthy : Engine :=
  {| catalog := [orders; spt_monitor; customers]; catalog_readable := true |}.

Definition one_locked : Engine :=
  {| catalog := [orders; locked; customers]; catalog_readable := true |}.

Definition unreadable : Engine :=
  {| catalog := [orders]; catalog_readable := false |}.

(** [healthy] after [customers] was renamed and the catalog reordered. *)
Definition clients : EngineTable :=
  {| et_name := "clients";
     et_columns := et_columns customers;
     et_primary := et_primary customers;
     et_readable := true |}.

Definition rearranged : Engine :=
  {| catalog := [clients; orders]; catalog_readable := true |}.

(** A value with the characters that end a string and a statement. *)
Definition hostile : JsVal := JStr "1'; DROP TABLE orders; --".

(** A statement that has this value written into its text. *)
Definition select_inlined : string :=
  "SELECT * FROM orders WHERE note = '1'; DROP TABLE orders; --'".

(** A catalog whose only table cannot be read. *)
Definition locked_alone : Engine :=
  {| catalog := [locked]; catalog_readable := true |}.

(** A table whose name has a quote in it, as [[o'brien]] names one. *)
Definition obrien : EngineTable :=
  {| et_name := "o'brien";
     et_columns := [("id", "int", true)];
     et_primary := ["id"];
     et_readable := true |}.

Definition quoted : Engine :=
  {| catalog := [obrien]; catalog_readable := true |}.

(** A table with a column named [__proto__], and a table of that name:
    identifiers like any other to the engine. *)
Definition settings : EngineTable :=
  {| et_name := "settings";
     et_columns := [("id", "int", true); ("__proto__", "nvarchar", false)];
     et_primary := ["id"];
     et_readable := true |}.

Definition proto_table : EngineTable :=
  {| et_name := "__proto__";
     et_columns := [("id", "int", true)];
     et_primary := ["id"];
     et_readable := true |}.

Definition with_proto : Engine :=
  {| catalog := [settings; proto_table]; catalog_readable := true |}.

End Sample.

(** * The webhook controller

    [packages/server/src/api/controllers/webhook.js]: the handlers [save]
    and [trigger].  The documents of the database and the bodies of the
    requests are JSON values, which the handlers read and change property
    by property. *)

Module Webhook.

(** A value: a primitive, an array or a plain object.  An array has its
    items and, like any object, may have been given named properties.
    What is inherited from the prototypes ([toString], [constructor], ...)
    is not modelled; the handlers read no such property. *)
#[local] Unset Elimination Schemes.
Inductive Json : Type :=
| Undefined
| Null
| Bool (b : bool)
| Num (n : Z)
| Str (s : string)
| Arr (items : list Json) (named : gmap string Json)
| Obj (props : gmap string Json).
#[local] Set Elimination Schemes.

(** ToBoolean. *)
Definition truthy (v : Json) : bool :=
  match v with
  | Undefined | Null => false
  | Bool b => b
  | Num n => negb (n =? 0)%Z
  | Str s => negb (String.eqb s "")
  | Arr _ _ | Obj _ => true
  end.

(** [v === n] for a number literal [n], [v === s] for a string literal
    [s]. *)
Definition is_number (v : Json) (n : Z) : bool :=
  match v with Num m => (m =? n)%Z | _ => false end.

Definition is_string (v : Json) (s : string) : bool :=
  match v with Str t => String.eqb t s | _ => false end.

(** The key of the [i]-th item of an array, of the [i]-th code unit of a
    string. *)
Definition index_key (i : nat) : string := ToString (JNum (Z.of_nat i)).

Definition indexed (items : list Json) : gmap string Json :=
  list_to_map (imap (fun i x => (index_key i, x)) items).

(** The code units of a string, each as a string of its own.  A [string]
    stands for the JavaScript string that has its characters for code
    units: the strings whose code units are all below 256. *)
Definition code_units (s : string) : list Json :=
  List.map (fun c => Str (String c "")) (list_ascii_of_string s).

(** The own enumerable properties of a value: what [{ ...v }] copies. *)
Definition own_props (v : Json) : gmap string Json :=
  match v with
  | Obj props => props
  | Arr items named => indexed items ∪ named
  | Str s => indexed (code_units s)
  | Undefined | Null | Bool _ | Num _ => ∅
  end.

Definition error_object (name message : string) : Json :=
  Obj {[ "name" := Str name; "message" := Str message ]}.

(** The [TypeError] of reading or setting a property of [undefined] or
    [null], and of setting one on a primitive in strict mode.  It has no
    [status].  The message is the engine's wording. *)
Definition TypeError (what key : string) : Json :=
  error_object "TypeError"
    ("Cannot " +:+ what +:+ " properties of undefined or a primitive ('"
     +:+ key +:+ "')").

(** [v.key], read: a thrown value on the left. *)
Definition get_prop (v : Json) (key : string) : Json + Json :=
  match v with
  | Undefined | Null => inl (TypeError "read" key)
  | Arr items _ =>
      if String.eqb key "length" then inr (Num (Z.of_nat (length items)))
      else inr (default Undefined (own_props v !! key))
  | Str s =>
      if String.eqb key "length" then inr (Num (Z.of_nat (String.length s)))
      else inr (default Undefined (own_props v !! key))
  | Bool _ | Num _ | Obj _ => inr (default Undefined (own_props v !! key))
  end.

(** [v.key = x] for a [key] that is no index, not [length] and not
    [__proto__] (the handlers set [appId], [_id] and [_rev]).  On a
    primitive the assignment throws in strict mode and does nothing
    otherwise. *)
Definition set_prop (strict : bool) (v : Json) (key : string) (x : Json)
  : Json + Json :=
  match v with
  | Undefined | Null => inl (TypeError "set" key)
  | Obj props => inr (Obj (<[ key := x ]> props))
  | Arr items named => inr (Arr items (<[ key := x ]> named))
  | Bool _ | Num _ | Str _ => if strict then inl (TypeError "set" key) else inr v
  end.

(** What the handlers use of the Koa context.  [ctx.request.body] is the
    object the handler [save] changes in place. *)
Record Ctx : Type := {
  appId : Json;
  params : gmap string Json;
  request_body : Json;
  status : Json;
  body : Json
}.

(** The imports of the file: [CouchDB] of [../../db], [generateWebhookID]
    of [../../db/utils], [validate] of [jsonschema],
    [triggers.externalTrigger] of [../../automations/triggers],
    [getDeployedAppID] of [@budibase/auth/db].  They are parameters, over a
    type [S] of states of the database and of the automations: each takes
    the state and returns it with what it threw (left) or returned
    (right).  Constructing a [CouchDB] is taken not to throw.
    [strict_mode] is whether the file is run in strict mode, which the
    build decides. *)
Class Services (S : Type) : Type := {
  strict_mode : bool;
  getDeployedAppID : Json -> Json + Json;
  generateWebhookID : S -> (Json + Json) * S;
  (** [new CouchDB(name).get(id)] *)
  db_get : Json -> Json -> S -> (Json + Json) * S;
  (** [new CouchDB(name).put(doc)] *)
  db_put : Json -> Json -> S -> (Json + Json) * S;
  validate : Json -> Json -> S -> (Json + Json) * S;
  externalTrigger : Json -> Json -> S -> (Json + Json) * S
}.

Section Handlers.
Context {S : Type} `{!Services S}.

(** A handler at work: it ends resolved or rejected, with the context and
    the state as it left them. *)
Inductive Settled (A : Type) : Type :=
| Resolved (a : A) (ctx : Ctx) (s : S)
| Rejected (err : Json) (ctx : Ctx) (s : S).
Arguments Resolved {A} a ctx s.
Arguments Rejected {A} err ctx s.

Definition Handler (A : Type) : Type := Ctx -> S -> Settled A.

Definition resolve {A} (a : A) : Handler A := fun ctx s => Resolved a ctx s.

Definition reject {A} (err : Json) : Handler A := fun ctx s => Rejected err ctx s.

Definition and_then {A B} (m : Handler A) (k : A -> Handler B) : Handler B :=
  fun ctx s =>
    match m ctx s with
    | Resolved a ctx' s' => k a ctx' s'
    | Rejected err ctx' s' => Rejected err ctx' s'
    end.

(** [try { m } catch (err) { h err }]. *)
Definition try_catch {A} (m : Handler A) (h : Json -> Handler A) : Handler A :=
  fun ctx s =>
    match m ctx s with
    | Resolved a ctx' s' => Resolved a ctx' s'
    | Rejected err ctx' s' => h err ctx' s'
    end.

(** What threw or returned without looking at the state. *)
Definition of_sum {A} (r : Json + A) : Handler A :=
  match r with
  | inl err => reject err
  | inr a => resolve a
  end.

(** A call of one of the services. *)
Definition call (f : S -> (Json + Json) * S) : Handler Json :=
  fun ctx s =>
    let '(r, s') := f s in
    match r with
    | inl err => Rejected err ctx s'
    | inr v => Resolved v ctx s'
    end.

Definition read_ctx {A} (f : Ctx -> A) : Handler A :=
  fun ctx s => Resolved (f ctx) ctx s.

Definition param (key : string) : Handler Json :=
  read_ctx (fun ctx => default Undefined (params ctx !! key)).

Definition set_status (v : Json) : Handler unit :=
  fun ctx s =>
    Resolved tt {| appId := appId ctx; params := params ctx;
                   request_body := request_body ctx; status := v;
                   body := body ctx |} s.

Definition set_body (v : Json) : Handler unit :=
  fun ctx s =>
    Resolved tt {| appId := appId ctx; params := params ctx;
                   request_body := request_body ctx; status := status ctx;
                   body := v |} s.

(** [ctx.request.body.key = x]. *)
Definition set_request_body_prop (key : string) (x : Json) : Handler unit :=
  fun ctx s =>
    match set_prop strict_mode (request_body ctx) key x with
    | inl err => Rejected err ctx s
    | inr v =>
        Resolved tt {| appId := appId ctx; params := params ctx;
                       request_body := v; status := status ctx;
                       body := body ctx |} s
    end.

End Handlers.

Arguments Resolved {S A} a ctx s.
Arguments Rejected {S A} err ctx s.

#[global] Instance Handler_ret {S} : MRet (@Handler S) := fun _ a => resolve a.
#[global] Instance Handler_bind {S} : MBind (@Handler S) :=
  fun _ _ k m => and_then m k.

Section Controller.
Context {S : Type} `{!Services S}.

(** [exports.WebhookType.AUTOMATION]. *)
Definition AUTOMATION : string := "automation".

(** [exports.save] (lines 35-52).  [webhook] is [ctx.request.body], the
    same object all along. *)
Definition save : Handler (S := S) unit :=
  appId ← read_ctx appId;
  set_request_body_prop "appId" appId;;
  webhook ← read_ctx request_body;
  _id ← of_sum (get_prop webhook "_id");
  (if truthy _id
   then call (db_get appId _id);; mret tt
   else _id ← call generateWebhookID;
        set_request_body_prop "_id" _id);;
  webhook ← read_ctx request_body;
  response ← call (db_put appId webhook);
  rev ← of_sum (get_prop response "rev");
  set_request_body_prop "_rev" rev;;
  webhook ← read_ctx request_body;
  set_body (Obj {[ "message" := Str "Webhook created successfully";
                   "webhook" := webhook ]}).

(** The argument of [triggers.externalTrigger] (lines 92-96):
    [{ body: ctx.request.body, ...ctx.request.body, appId: prodAppId }]. *)
Definition trigger_payload (request_body prodAppId : Json) : Json :=
  Obj (<[ "appId" := prodAppId ]>
         (own_props request_body ∪ {[ "body" := request_body ]})).

(** The block of the [try] of [exports.trigger] (lines 82-101). *)
Definition trigger_try (prodAppId : Json) : Handler (S := S) unit :=
  id ← param "id";
  webhook ← call (db_get prodAppId id);
  bodySchema ← of_sum (get_prop webhook "bodySchema");
  (if truthy bodySchema
   then request_body ← read_ctx request_body;
        call (validate request_body bodySchema);; mret tt
   else mret tt);;
  action ← of_sum (get_prop webhook "action");
  target_id ← of_sum (get_prop action "target");
  target ← call (db_get prodAppId target_id);
  action ← of_sum (get_prop webhook "action");
  type ← of_sum (get_prop action "type");
  (if is_string type AUTOMATION
   then request_body ← read_ctx request_body;
        call (externalTrigger target (trigger_payload request_body prodAppId));;
        mret tt
   else mret tt);;
  set_status (Num 200);;
  set_body (Obj {[ "message" := Str "Webhook trigger fired successfully" ]}).

(** The block of the [catch] of [exports.trigger] (lines 102-109). *)
Definition trigger_catch (err : Json) : Handler (S := S) unit :=
  err_status ← of_sum (get_prop err "status");
  if is_number err_status 404
  then set_status (Num 200);;
       set_body (Obj {[ "message" := Str "Application not deployed yet." ]})
  else mret tt.

(** [exports.trigger] (lines 79-110). *)
Definition trigger : Handler (S := S) unit :=
  instance ← param "instance";
  prodAppId ← of_sum (getDeployedAppID instance);
  try_catch (trigger_try prodAppId) trigger_catch.

End Controller.

End Webhook.

(** ** A database and automations to run the controller on *)

Module WebhookSample.
Import Webhook.

(** The documents by identifier, the automations triggered so far with
    what they were given, and the number of identifiers generated. *)
Record Store : Type := {
  docs : gmap string Json;
  fired : list (Json * Json);
  generated : nat
}.

Definition http_error (code : Z) (name : string) : Json :=
  Obj {[ "status" := Num code; "name" := Str name ]}.

Definition get (id : Json) (s : Store) : (Json + Json) * Store :=
  match id with
  | Str k =>
      match docs s !! k with
      | Some doc => (inr doc, s)
      | None => (inl (http_error 404 "not_found"), s)
      end
  | _ => (inl (http_error 400 "bad_request"), s)
  end.

Definition put (doc : Json) (s : Store) : (Json + Json) * Store :=
  match get_prop doc "_id" with
  | inr (Str k) =>
      (inr (Obj {[ "ok" := Bool true; "id" := Str k; "rev" := Str "1-a" ]}),
       {| docs := <[ k := doc ]> (docs s); fired := fired s;
          generated := generated s |})
  | _ => (inl (http_error 400 "bad_request"), s)
  end.

Definition services : Services Store :=
  {| strict_mode := false;
     getDeployedAppID := fun instance =>
       match instance with
       | Str _ => inr instance
       | _ => inl (TypeError "read" "replace")
       end;
     generateWebhookID := fun s =>
       (inr (Str ("wh_" +:+ index_key (generated s))),
        {| docs := docs s; fired := fired s; generated := S (generated s) |});
     db_get := fun _ id s => get id s;
     db_put := fun _ doc s => put doc s;
     validate := fun _ _ s => (inr (Obj {[ "valid" := Bool true ]}), s);
     externalTrigger := fun target payload s =>
       (inr Undefined,
        {| docs := docs s; fired := (fired s ++ [(target, payload)])%list;
           generated := generated s |}) |}.

Definition webhook_doc (target : string) : Json :=
  Obj {[ "_id" := Str "wh_1"; "name" := Str "orders";
         "action" := Obj {[ "type" := Str "automation";
                            "target" := Str target ]} ]}.

(** A webhook whose automation is there, one whose automation is not, and
    one without [action]. *)
Definition store_of (webhook : Json) : Store :=
  {| docs := {[ "wh_1" := webhook; "au_1" := Obj {[ "_id" := Str "au_1" ]} ]};
     fired := []; generated := 0 |}.

Definition request (id : string) (request_body : Json) : Ctx :=
  {| appId := Str "app_1";
     params := {[ "instance" := Str "app_1"; "id" := Str id ]};
     request_body := request_body;
     status := Num 404;
     body := Undefined |}.

End WebhookSample.

(** ** The vocabulary of the statements *)

(** [keeps f m]: running [m] leaves [f] of the state as it was, whether
    [m] returns or throws. *)
Definition keeps {S X A} (f : S -> X) (m : M S A) : Prop :=
  forall s, f (final_state (m s)) = f s.

(** The message of what was thrown, as its thrower wrote it. *)
Definition original_message (err : JsThrown) : string :=
  match err with
  | ThrowString s => s
  | ThrowError _ message => message
  end.

(** How the text of a statement refers to the parameter that
    [request.input] declared under the name [p<i>]. *)
Definition placeholder (i : nat) : string :=
  "@p" +:+ ToString (JNum (Z.of_nat i)).

Section Vocabulary.
Context {DB : Type} `{!Driver DB} `{!Utils}.

(** [err] is a rejection of the driver: of some [pool.connect()] or of some
    [request.query(text)]. *)
Definition raised_by_driver (err : JsThrown) : Prop :=
  (exists pl d d', pool_connect pl d = (Some err, d'))
  \/ (exists request text d d', request_query request text d = (inl err, d')).

(** The two lines that [read], [create], [update] and [delete] start
    with: [await this.connect()] and
    [await internalQuery(this.client, getSqlQuery(query))]. *)
Definition run_given (query : SqlQuery + string) : M (Process DB) Response :=
  connect;;
  c ← gets (fun p => client (this p));
  in_world (internalQuery c (getSqlQuery query) None).

(** The two fields [buildSchema] assigns. *)
Definition schema_fields (p : Process DB)
  : gmap string Table.t * gmap string string :=
  (tables (this p), schemaErrors (this p)).

End Vocabulary.

Section MoreVocabulary.
Context `{!Utils}.

(** The texts of the three statements the loop of [buildSchema] runs for
    one table, in the order of lines 199-203, as [runSQL] passes them
    through [getSqlQuery]. *)
Definition metadata_texts (tableName : JsVal) : list string :=
  [ sql (getSqlQuery (inr (getDefinitionSQL tableName)));
    sql (getSqlQuery (inr (getConstraintsSQL tableName)));
    sql (getSqlQuery (inr (getAutoColumnsSQL tableName))) ].

End MoreVocabulary.

Section DriverVocabulary.
Context {DB : Type} `{!Driver DB} `{!Utils}.

(** The request [runSQL text] makes of the client [c], and the text it
    hands to [request.query] with it. *)
Definition runSQL_request (c : ConnectionPool) (text : string) : Request :=
  declare_bindings {| req_pool := c; parameters := [] |}
    (getSqlQuery (inr text)).

Definition runSQL_text (text : string) : string :=
  sql (getSqlQuery (inr text)).

(** What the driver does with the statement of [runSQL text] when it
    gets it in the process [p]: it rejects or resolves, and leaves the
    engine in some state. *)
Definition engine_answer (c : ConnectionPool) (text : string) (p : Process DB)
  : (JsThrown + Response) * DB :=
  request_query (runSQL_request c text) (runSQL_text text) (db (world p)).

(** The process [p] once the driver has been handed the statement of
    [runSQL text] and has left the engine in the state [db']. *)
Definition answered (c : ConnectionPool) (text : string) (db' : DB)
    (p : Process DB) : Process DB :=
  {| this := this p;
     world := {| db := db';
                 sent := sent (world p)
                         ++ [(runSQL_request c text, runSQL_text text)];
                 pools := pools (world p) |} |}.

End DriverVocabulary.

(** * Properties *)

(** ** Strings *)

Lemma append_cons (a : ascii) (s t : string) :
  String a s +:+ t = String a (s +:+ t).
Proof. reflexivity. Qed.

Lemma prefix_app (n t s : string) :
  String.prefix n t = true -> String.prefix n (t +:+ s) = true.
Proof.
  revert t. induction n as [|a n IH]; intros t.
  - intros _. by destruct (t +:+ s).
  - destruct t as [|b t]; simpl; [done|].
    destruct (ascii_dec a b); [apply IH | done].
Qed.

Lemma includes_app (n t s : string) :
  includes n t = true -> includes n (t +:+ s) = true.
Proof.
  induction t as [|b t IH]; simpl.
  - rewrite orb_false_r. destruct n; [|done]. intros _. by destruct s.
  - intros [Hp | Hi]%orb_true_iff; apply orb_true_iff.
    + left. by apply (prefix_app n (String b t) s).
    + right. by apply IH.
Qed.

(** [String(err)] ends with the message of [err]. *)
Lemma String_of_ends_with_message (name message : string) :
  exists before, String_of (ThrowError name message) = before +:+ message.
Proof.
  unfold String_of, Error_toString.
  destruct (String.eqb name "") eqn:En.
  - by exists "".
  - destruct (String.eqb message "") eqn:Em.
    + apply String.eqb_eq in Em as ->. exists name.
      clear En. induction name; [done|]. rewrite append_cons. congruence.
    + exists (name +:+ ": ").
      clear En Em. induction name as [|a name IH]; [done|].
      change (String a (name +:+ ": " +:+ message)
              = String a ((name +:+ ": ") +:+ message)).
      by f_equal.
Qed.

(** The decimal form of a number starts with a digit or a minus sign: it
    is none of the names of [MASTER_TABLES]. *)
Lemma ToString_number_not_master (n : Z) :
  ToString (JNum n) ∉ MASTER_TABLES.
Proof.
  unfold ToString, NilZero.string_of_int, NilZero.string_of_uint.
  destruct (Z.to_int n) as [d|d]; destruct d; simpl;
    intros Hin; repeat (apply elem_of_cons in Hin as [Hin|Hin]; [done|]);
    by apply elem_of_nil in Hin.
Qed.

(** ** Assignments to a property of a plain object *)

Lemma lookup_assign {V : Type} (key j : string) (v : V) (o : gmap string V) :
  assign key v o !! j
  = if decide (key = "__proto__") then o !! j
    else if decide (key = j) then Some v else o !! j.
Proof.
  unfold assign. destruct (String.eqb_spec key "__proto__") as [Hkey|Hkey];
    case_decide; try done.
  apply lookup_insert.
Qed.

(** No assignment makes an own property ["__proto__"]. *)
Lemma lookup_assign_proto {V : Type} (key : string) (v : V)
    (o : gmap string V) :
  o !! "__proto__" = None -> assign key v o !! "__proto__" = None.
Proof.
  intros Ho. rewrite lookup_assign. by case_decide.
Qed.

(** ** Computations *)

Ltac unfold_eff :=
  unfold mbind, mret, M_bind, M_ret, bind, ret, throw, try_catch, gets,
    modify in *.

Lemma keeps_ret {S X A} (f : S -> X) (a : A) : keeps f (mret a : M S A).
Proof. by intros s. Qed.

Lemma keeps_bind {S X A B} (f : S -> X) (m : M S A) (k : A -> M S B) :
  keeps f m -> (forall a, keeps f (k a)) -> keeps f (m ≫= k).
Proof.
  intros Hm Hk s. specialize (Hm s). unfold_eff.
  destruct (m s) as [a s'|e s']; simpl in *; [|done].
  by rewrite Hk.
Qed.

Lemma keeps_for_of {S X A B} (f : S -> X) (l : list A)
    (body : B -> A -> M S B) (acc : B) :
  (forall b a, keeps f (body b a)) -> keeps f (for_of l body acc).
Proof.
  intros Hbody. revert acc.
  induction l as [|x l IH]; intros acc; simpl.
  - by intros s.
  - apply (keeps_bind f (body acc x)); [apply Hbody | apply IH].
Qed.

Lemma keeps_array_or_throw {S X A} (f : S -> X) (e : JsThrown) (a : option A) :
  keeps f (array_or_throw e a : M S A).
Proof. by destruct a; intros s. Qed.

(** The loop over [pre ++ k :: post] is the loop over [pre], then the body
    at [k], then the loop over [post]. *)
Lemma for_of_app {S A B} (pre post : list A) (body : B -> A -> M S B)
    (acc : B) (s : S) :
  for_of (pre ++ post) body acc s
  = (acc' ← for_of pre body acc; for_of post body acc') s.
Proof.
  revert acc s. induction pre as [|x pre IH]; intros acc s; simpl.
  - done.
  - unfold_eff. destruct (body acc x s) as [b s'|e s']; [|done].
    apply IH.
Qed.

(** A loop that returned went through every element: an invariant of the
    accumulator that the body keeps holds of the result. *)
Lemma for_of_invariant {S A B} (P : B -> Prop) (l : list A)
    (body : B -> A -> M S B) (acc : B) (s s' : S) (r : B) :
  (forall b a s1 b' s2, a ∈ l -> P b -> body b a s1 = Returned b' s2 -> P b') ->
  P acc ->
  for_of l body acc s = Returned r s' ->
  P r.
Proof.
  revert acc s. induction l as [|x l IH]; intros acc s Hbody Hacc; simpl.
  - unfold_eff. by intros [= <- _].
  - unfold_eff. destruct (body acc x s) as [b s1|e s1] eqn:Hx; [|done].
    apply IH.
    + intros b0 a s0 b' s2 Ha. apply Hbody. by right.
    + apply (Hbody acc x s b s1); [by left|done..].
Qed.

(** A loop throws only what its body throws. *)
Lemma for_of_throws {S A B} (P : JsThrown -> Prop) (l : list A)
    (body : B -> A -> M S B) (acc : B) (s s' : S) (e : JsThrown) :
  (forall b a s1 e' s2, body b a s1 = Threw e' s2 -> P e') ->
  for_of l body acc s = Threw e s' ->
  P e.
Proof.
  intros Hbody. revert acc s. induction l as [|x l IH]; intros acc s; simpl.
  - by unfold_eff.
  - unfold_eff. destruct (body acc x s) as [b s1|e1 s1] eqn:Hx.
    + apply IH.
    + intros [= <- _]. by eapply Hbody.
Qed.

Section Facts.
Context {DB : Type} `{!Driver DB} `{!Utils}.

(** ** [internalQuery] *)

(** The parameters the loop of lines 90-93 declares: the [i]-th binding
    under the name [p<count + i>], in the order of the bindings. *)
Lemma input_bindings_parameters (request : Request) (bs : list JsVal)
    (count : nat) :
  parameters (input_bindings request bs count)
  = (parameters request
     ++ imap (fun i b => ("p" +:+ ToString (JNum (Z.of_nat (count + i))), b))
          bs)%list.
Proof.
  revert request count. induction bs as [|b bs IH]; intros request count.
  - simpl. by rewrite app_nil_r.
  - cbn [input_bindings]. rewrite IH. unfold input. cbn [parameters].
    rewrite <- app_assoc. f_equal. cbn [imap app].
    rewrite Nat.add_0_r. f_equal.
    apply imap_ext. intros i x _. unfold compose.
    by replace (S count + i) with (count + S i) by lia.
Qed.

(** What [internalQuery] does with a client: one exchange with the engine,
    whose rejection is wrapped. *)
Lemma internalQuery_client (c : ConnectionPool) (query : SqlQuery)
    (operation : option string) (w : World DB) :
  let request :=
    declare_bindings {| req_pool := c; parameters := [] |} query in
  let text := sent_text query operation in
  let w' db' := {| db := db'; sent := sent w ++ [(request, text)];
                   pools := pools w |} in
  internalQuery (Some c) query operation w
  = match request_query request text (db w) with
    | (inl err, db') => Threw (new_Error err) (w' db')
    | (inr response, db') => Returned response (w' db')
    end.
Proof.
  unfold internalQuery, client_request, query_request. unfold_eff.
  destruct (request_query _ _ _) as [[err|response] db']; done.
Qed.

End Facts.

Section ClassFacts.
Context {DB : Type} `{!Driver DB} `{!Utils}.

(** ** What the methods leave alone *)

Lemma in_world_this {A} (m : M (World DB) A) (p : Process DB) :
  this (final_state (in_world m p)) = this p.
Proof. unfold in_world. by destruct (m (world p)). Qed.

(** [connect] by cases: no pool, a rejected connection, a connection. *)
Lemma connect_cases (p : Process DB) :
  match pool (this p) with
  | None => connect p = Threw (new_Error (TypeError_undefined "connect")) p
  | Some pl =>
      let w' db' := {| db := db'; sent := sent (world p);
                       pools := pools (world p) |} in
      match pool_connect pl (db (world p)) with
      | (Some err, db') =>
          connect p = Threw (new_Error err) {| this := this p; world := w' db' |}
      | (None, db') =>
          connect p
          = Returned tt {| this := set_client pl (this p); world := w' db' |}
      end
  end.
Proof.
  unfold connect, await_pool_connect. unfold_eff.
  destruct (pool (this p)) as [pl|]; [|done].
  by destruct (pool_connect pl (db (world p))) as [[err|] db'].
Qed.

Lemma connect_keeps_schema_fields : keeps schema_fields connect.
Proof.
  intros p. pose proof (connect_cases p) as Hc.
  destruct (pool (this p)) as [pl|]; [|by rewrite Hc].
  destruct (pool_connect pl (db (world p))) as [[err|] db']; by rewrite Hc.
Qed.

(** [connect] constructs no pool and keeps the pool of the object. *)
Lemma connect_keeps_pools :
  keeps (fun p => (pool (this p), pools (world p))) connect.
Proof.
  intros p. pose proof (connect_cases p) as Hc.
  destruct (pool (this p)) as [pl|] eqn:Hp; [|by rewrite Hc; simpl; rewrite Hp].
  destruct (pool_connect pl (db (world p))) as [[err|] db']; rewrite Hc; simpl;
    by rewrite ?Hp.
Qed.

Lemma connect_keeps_sent : keeps (fun p => sent (world p)) connect.
Proof.
  intros p. pose proof (connect_cases p) as Hc.
  destruct (pool (this p)) as [pl|]; [|by rewrite Hc].
  destruct (pool_connect pl (db (world p))) as [[err|] db']; by rewrite Hc.
Qed.

(** After [connect] has returned, the object has a client. *)
Lemma connect_Returned (p p1 : Process DB) :
  connect p = Returned tt p1 -> is_Some (client (this p1)).
Proof.
  pose proof (connect_cases p) as Hc.
  destruct (pool (this p)) as [pl|]; [|by rewrite Hc].
  destruct (pool_connect pl (db (world p))) as [[err|] db']; rewrite Hc;
    [done|].
  intros [= <-]. by eexists.
Qed.

(** What [connect] throws is a wrapped rejection of the driver. *)
Lemma connect_Threw (p s : Process DB) (e : JsThrown) :
  is_Some (pool (this p)) ->
  connect p = Threw e s ->
  exists err, raised_by_driver err /\ e = new_Error err.
Proof.
  intros [pl Hp]. pose proof (connect_cases p) as Hc. rewrite Hp in Hc.
  destruct (pool_connect pl (db (world p))) as [[err|] db'] eqn:Hd;
    rewrite Hc; [|done].
  intros [= <- _]. exists err. split; [|done]. left. by exists pl, (db (world p)), db'.
Qed.

Lemma runSQL_keeps_this (text : string) : keeps this (runSQL text).
Proof.
  intros p. unfold runSQL. unfold_eff.
  pose proof (in_world_this
    (internalQuery (client (this p)) (getSqlQuery (inr text)) None) p) as Hi.
  by destruct (in_world _ p).
Qed.

Lemma runSQL_keeps_schema_fields (text : string) :
  keeps schema_fields (runSQL text).
Proof.
  intros p. unfold schema_fields. by rewrite runSQL_keeps_this.
Qed.

Lemma buildSchema_table_keeps_schema_fields (datasourceId : string)
    (acc : gmap string Table.t) (tableName : JsVal) :
  keeps schema_fields (buildSchema_table datasourceId acc tableName).
Proof.
  unfold buildSchema_table.
  repeat (apply keeps_bind; [first [apply runSQL_keeps_schema_fields
                                   | apply keeps_array_or_throw]|intros ?]).
  apply keeps_ret.
Qed.

Lemma buildSchema_tables_keeps_schema_fields (datasourceId : string)
    (tableNames : list JsVal) :
  keeps schema_fields (buildSchema_tables datasourceId tableNames).
Proof.
  apply keeps_for_of. intros. apply buildSchema_table_keeps_schema_fields.
Qed.

(** The loop of [buildSchema] assigns no field of the object. *)
Lemma buildSchema_tables_keeps_this (datasourceId : string)
    (tableNames : list JsVal) :
  keeps this (buildSchema_tables datasourceId tableNames).
Proof.
  apply keeps_for_of. intros acc tableName. unfold buildSchema_table.
  repeat (apply keeps_bind; [first [apply runSQL_keeps_this
                                   | apply keeps_array_or_throw]|intros ?]).
  apply keeps_ret.
Qed.

(** [runSQL] with a client, by what the driver does with its statement. *)
Lemma runSQL_answered (c : ConnectionPool) (text : string) (p : Process DB) :
  client (this p) = Some c ->
  runSQL text p
  = match engine_answer c text p with
    | (inl err, db') => Threw (new_Error err) (answered c text db' p)
    | (inr response, db') =>
        Returned (recordset response) (answered c text db' p)
    end.
Proof.
  intros Hc. unfold runSQL. unfold_eff. rewrite Hc.
  unfold in_world. rewrite internalQuery_client.
  unfold sent_text. rewrite bool_decide_eq_false_2 by done.
  unfold engine_answer, answered, runSQL_request, runSQL_text.
  by destruct (request_query _ _ _) as [[err|response] db'].
Qed.

(** The client of a connected object is its pool. *)
Lemma connect_client (p p1 : Process DB) (pl : ConnectionPool) :
  pool (this p) = Some pl ->
  connect p = Returned tt p1 ->
  client (this p1) = Some pl.
Proof.
  intros Hp. pose proof (connect_cases p) as Hc. rewrite Hp in Hc.
  destruct (pool_connect pl (db (world p))) as [[err|] db']; rewrite Hc;
    [done|].
  by intros [= <-].
Qed.

(** ** What the methods throw *)

(** [internalQuery] with a client throws wrapped rejections only. *)
Lemma internalQuery_Threw (c : ConnectionPool) (query : SqlQuery)
    (operation : option string) (w w' : World DB) (e : JsThrown) :
  internalQuery (Some c) query operation w = Threw e w' ->
  exists err, raised_by_driver err /\ e = new_Error err.
Proof.
  rewrite internalQuery_client.
  destruct (request_query _ _ _) as [[err|response] db'] eqn:Hq; [|done].
  intros [= <- _]. exists err. split; [|done]. right. eauto.
Qed.

Lemma in_world_Threw {A} (m : M (World DB) A) (p s : Process DB) (e : JsThrown) :
  in_world m p = Threw e s -> m (world p) = Threw e (world s).
Proof.
  unfold in_world. destruct (m (world p)); [done|]. by intros [= <- <-].
Qed.

(** The shared body of [read], [create], [update] and [delete]. *)
Lemma run_given_Threw (query : SqlQuery + string) (p s : Process DB)
    (e : JsThrown) :
  is_Some (pool (this p)) ->
  run_given query p = Threw e s ->
  exists err, raised_by_driver err /\ e = new_Error err.
Proof.
  intros Hp. unfold run_given. unfold_eff.
  destruct (connect p) as [[] p1|e1 p1] eqn:Hc.
  - destruct (connect_Returned _ _ Hc) as [c Hcl]. rewrite Hcl.
    intros Hq%in_world_Threw. by eapply internalQuery_Threw.
  - intros [= <- _]. by eapply connect_Threw.
Qed.

(** Every thrown value of [runSQL] is an error object, never a string. *)
Lemma runSQL_Threw (text : string) (p s : Process DB) (e : JsThrown) :
  runSQL text p = Threw e s -> exists name message, e = ThrowError name message.
Proof.
  unfold runSQL. unfold_eff.
  destruct (in_world _ p) as [r p1|e1 p1] eqn:Hq; [done|].
  intros [= <- _]. apply in_world_Threw in Hq.
  destruct (client (this p)) as [c|].
  - apply internalQuery_Threw in Hq as (err & _ & ->). by eexists _, _.
  - unfold internalQuery, client_request in Hq. unfold_eff.
    injection Hq as <- _. by eexists _, _.
Qed.

Lemma buildSchema_table_Threw (datasourceId : string)
    (acc : gmap string Table.t) (tableName : JsVal) (p s : Process DB)
    (e : JsThrown) :
  buildSchema_table datasourceId acc tableName p = Threw e s ->
  exists name message, e = ThrowError name message.
Proof.
  unfold buildSchema_table, array_or_throw. unfold_eff.
  destruct (runSQL _ p) as [definition p1|e1 p1] eqn:H1;
    [|intros [= <- _]; by eapply runSQL_Threw].
  destruct (runSQL _ p1) as [constraints p2|e2 p2] eqn:H2;
    [|intros [= <- _]; by eapply runSQL_Threw].
  destruct (runSQL _ p2) as [columns p3|e3 p3] eqn:H3;
    [|intros [= <- _]; by eapply runSQL_Threw].
  destruct constraints; [|intros [= <- _]; by eexists _, _].
  destruct columns; [|intros [= <- _]; by eexists _, _].
  destruct definition; [done|intros [= <- _]; by eexists _, _].
Qed.

End ClassFacts.

Lemma keeps_Returned {S X A} (f : S -> X) (m : M S A) (s s' : S) (a : A) :
  keeps f m -> m s = Returned a s' -> f s' = f s.
Proof. intros Hm Hs. specialize (Hm s). by rewrite Hs in Hm. Qed.

Lemma keeps_Threw {S X A} (f : S -> X) (m : M S A) (s s' : S) (e : JsThrown) :
  keeps f m -> m s = Threw e s' -> f s' = f s.
Proof. intros Hm Hs. specialize (Hm s). by rewrite Hs in Hm. Qed.

Section BuildSchema.
Context {DB : Type} `{!Driver DB} `{!Utils}.

(** [runSQL] with a client hands one statement to the engine: its text. *)
Lemma runSQL_sent (text : string) (p : Process DB) :
  is_Some (client (this p)) ->
  exists request,
    sent (world (final_state (runSQL text p)))
    = (sent (world p) ++ [(request, sql (getSqlQuery (inr text)))])%list.
Proof.
  intros [c Hc]. unfold runSQL. unfold_eff. rewrite Hc.
  unfold in_world. rewrite internalQuery_client.
  unfold sent_text. rewrite bool_decide_eq_false_2 by done.
  destruct (request_query _ _ _) as [[err|response] db']; by eexists.
Qed.

(** [buildSchema] returns only along one path. *)
Lemma buildSchema_Returned (datasourceId : string)
    (entities : gmap string Table.t) (p p' : Process DB) :
  buildSchema datasourceId entities p = Returned tt p' ->
  exists p1 records p2 fresh p3,
    connect p = Returned tt p1
    /\ runSQL TABLES_SQL p1 = Returned (Some records) p2
    /\ buildSchema_tables datasourceId (candidate_names records) p2
       = Returned fresh p3
    /\ p' = {| this := set_final (finaliseExternalTables fresh entities)
                                 (this p3);
               world := world p3 |}.
Proof.
  unfold buildSchema. unfold_eff.
  destruct (connect p) as [[] p1|e1 p1] eqn:Hc; [|done].
  destruct (runSQL TABLES_SQL p1) as [[records|] p2|e2 p2] eqn:Hl; [|done..].
  destruct (buildSchema_tables _ _ p2) as [fresh p3|e3 p3] eqn:Ht; [|done].
  intros [= <-]. by exists p1, records, p2, fresh, p3.
Qed.

(** What the body of the loop throws for one table, [buildSchema] throws,
    and the object keeps its tables and its errors. *)
Lemma buildSchema_throws_what_a_table_throws
    (datasourceId : string) (entities : gmap string Table.t)
    (p p1 p2 p3 p4 : Process DB) (records : list Obj)
    (before : list JsVal) (k : JsVal) (after : list JsVal)
    (fresh : gmap string Table.t) (e : JsThrown) :
  connect p = Returned tt p1 ->
  runSQL TABLES_SQL p1 = Returned (Some records) p2 ->
  candidate_names records = (before ++ k :: after)%list ->
  buildSchema_tables datasourceId before p2 = Returned fresh p3 ->
  buildSchema_table datasourceId fresh k p3 = Threw e p4 ->
  buildSchema datasourceId entities p = Threw e p4
  /\ tables (this p4) = tables (this p)
  /\ schemaErrors (this p4) = schemaErrors (this p).
Proof.
  intros Hc Hl Hnames Hbefore Hk. split.
  - unfold buildSchema. unfold_eff. rewrite Hc, Hl.
    unfold buildSchema_tables in *. rewrite Hnames, for_of_app.
    unfold_eff. rewrite Hbefore. simpl. unfold_eff. by rewrite Hk.
  - assert (schema_fields p4 = schema_fields p) as [= Ht He]; [|done].
    rewrite (keeps_Threw _ _ _ _ _
               (buildSchema_table_keeps_schema_fields _ _ _) Hk).
    rewrite (keeps_Returned _ _ _ _ _
               (buildSchema_tables_keeps_schema_fields _ _) Hbefore).
    rewrite (keeps_Returned _ _ _ _ _ (runSQL_keeps_schema_fields _) Hl).
    by rewrite (keeps_Returned _ _ _ _ _ connect_keeps_schema_fields Hc).
Qed.

(** C1, as amended.  [buildSchema] is connected with the pool [c], the
    catalog lists the tables [before ++ k :: after], and the tables
    [before] have been introspected, which leaves the process [p3].  Then
    [buildSchema] stops at [k] as soon as the driver fails it:

    - when the driver rejects the definition statement of [k] with [err],
      or answers it and rejects the constraints statement, or answers both
      and rejects the statement of the auto columns, [buildSchema] throws
      [new Error(err)] in the process that rejection left, in which the
      rejected statement is the last one sent;
    - when the driver answers the three statements and the answer to the
      constraints or to the auto columns has no result set, [buildSchema]
      throws the [TypeError] of calling [filter] on [undefined], and when
      only the answer to the definition has none, the [TypeError] of
      iterating [undefined], in the process the third answer left.

    In every case neither [this.tables] nor [this.schemaErrors] has
    changed: nothing is recorded for [k], the tables [before] are not
    kept, and the tables [after] are not looked at. *)
Theorem buildSchema_aborts_when_a_table_fails
    (datasourceId : string) (entities : gmap string Table.t)
    (p p1 p2 p3 : Process DB) (c : ConnectionPool) (records : list Obj)
    (before : list JsVal) (k : JsVal) (after : list JsVal)
    (fresh : gmap string Table.t) :
  pool (this p) = Some c ->
  connect p = Returned tt p1 ->
  runSQL TABLES_SQL p1 = Returned (Some records) p2 ->
  candidate_names records = (before ++ k :: after)%list ->
  buildSchema_tables datasourceId before p2 = Returned fresh p3 ->
  let aborts (e : JsThrown) (p4 : Process DB) :=
    buildSchema datasourceId entities p = Threw e p4
    /\ tables (this p4) = tables (this p)
    /\ schemaErrors (this p4) = schemaErrors (this p) in
  let definition := getDefinitionSQL k in
  let constraints := getConstraintsSQL k in
  let columns := getAutoColumnsSQL k in
  (forall err db1,
     engine_answer c definition p3 = (inl err, db1) ->
     aborts (new_Error err) (answered c definition db1 p3))
  /\ (forall r1 db1,
        engine_answer c definition p3 = (inr r1, db1) ->
        let pa := answered c definition db1 p3 in
        (forall err db2,
           engine_answer c constraints pa = (inl err, db2) ->
           aborts (new_Error err) (answered c constraints db2 pa))
        /\ (forall r2 db2,
              engine_answer c constraints pa = (inr r2, db2) ->
              let pb := answered c constraints db2 pa in
              (forall err db3,
                 engine_answer c columns pb = (inl err, db3) ->
                 aborts (new_Error err) (answered c columns db3 pb))
              /\ (forall r3 db3,
                    engine_answer c columns pb = (inr r3, db3) ->
                    let pc := answered c columns db3 pb in
                    (recordset r2 = None \/ recordset r3 = None ->
                     aborts (TypeError_undefined "filter") pc)
                    /\ (is_Some (recordset r2) -> is_Some (recordset r3) ->
                        recordset r1 = None ->
                        aborts (TypeError_not_iterable "definition") pc)))).
Proof.
  intros Hpool Hc Hl Hnames Hbefore aborts definition constraints columns.
  assert (client (this p3) = Some c) as Hclient.
  { rewrite (keeps_Returned _ _ _ _ _
               (buildSchema_tables_keeps_this _ _) Hbefore).
    rewrite (keeps_Returned _ _ _ _ _ (runSQL_keeps_this _) Hl).
    by eapply connect_client. }
  assert (forall e p4,
            buildSchema_table datasourceId fresh k p3 = Threw e p4 ->
            aborts e p4) as Habort.
  { intros e p4 Hk.
    by eapply (buildSchema_throws_what_a_table_throws _ _ p p1 p2 p3 p4). }
  split.
  - intros err db1 H1. apply Habort.
    unfold buildSchema_table. unfold_eff.
    rewrite (runSQL_answered c) by done. fold definition. by rewrite H1.
  - intros r1 db1 H1 pa. split.
    + intros err db2 H2. apply Habort.
      unfold buildSchema_table. unfold_eff.
      rewrite (runSQL_answered c) by done. fold definition. rewrite H1.
      rewrite (runSQL_answered c) by done. fold constraints pa.
      by rewrite H2.
    + intros r2 db2 H2 pb. split.
      * intros err db3 H3. apply Habort.
        unfold buildSchema_table. unfold_eff.
        rewrite (runSQL_answered c) by done. fold definition. rewrite H1.
        rewrite (runSQL_answered c) by done. fold constraints pa.
        rewrite H2.
        rewrite (runSQL_answered c) by done. fold columns pb.
        by rewrite H3.
      * intros r3 db3 H3 pc.
        assert (buildSchema_table datasourceId fresh k p3
                = match recordset r2, recordset r3, recordset r1 with
                  | Some cs, Some au, Some d =>
                      Returned
                        (assign (ToString k)
                           {| Table._id := buildExternalTableId datasourceId k;
                              Table.primary := primaryKeys_of cs;
                              Table.name := k;
                              Table.schema := schema_of d (autoColumns_of au) |}
                           fresh) pc
                  | Some _, Some _, None =>
                      Threw (TypeError_not_iterable "definition") pc
                  | _, _, _ => Threw (TypeError_undefined "filter") pc
                  end) as Hbody.
        { unfold buildSchema_table, array_or_throw. unfold_eff.
          rewrite (runSQL_answered c) by done. fold definition. rewrite H1.
          rewrite (runSQL_answered c) by done. fold constraints pa.
          rewrite H2.
          rewrite (runSQL_answered c) by done. fold columns pb.
          rewrite H3. fold pc.
          by destruct (recordset r2), (recordset r3), (recordset r1). }
        split.
        -- intros Hnone. apply Habort. rewrite Hbody.
           destruct (recordset r2), (recordset r3);
             by destruct Hnone as [?|?].
        -- intros [cs Hcs] [au Hau] Hd. apply Habort.
           by rewrite Hbody, Hcs, Hau, Hd.
Qed.

(** C6, as amended.  [buildSchema] fails when the table list is not to be
    had.  It throws its fatal value,
    ["Unable to get list of tables in database"], when it is connected and
    the catalog statement gives no result set, and in no other case.  When
    the catalog statement is rejected the call throws that rejection.
    Either way the catalog statement is the only one the engine has
    received, and [this.tables] and [this.schemaErrors] are as before: no
    table has been introspected.  The last part says the same of what the
    driver does with the catalog statement: rejected with [err], the call
    throws [new Error(err)]; answered without result set, the fatal
    value. *)
Theorem buildSchema_fatal_without_table_list
    (datasourceId : string) (entities : gmap string Table.t)
    (p p2 : Process DB) :
  let fatal := ThrowString "Unable to get list of tables in database" in
  (buildSchema datasourceId entities p = Threw fatal p2
   <-> exists p1, connect p = Returned tt p1
                  /\ runSQL TABLES_SQL p1 = Returned None p2)
  /\ (forall p1 e,
        connect p = Returned tt p1 ->
        runSQL TABLES_SQL p1 = Threw e p2 ->
        buildSchema datasourceId entities p = Threw e p2)
  /\ (forall p1,
        connect p = Returned tt p1 ->
        runSQL TABLES_SQL p1 = Returned None p2
        \/ (exists e, runSQL TABLES_SQL p1 = Threw e p2) ->
        tables (this p2) = tables (this p)
        /\ schemaErrors (this p2) = schemaErrors (this p)
        /\ exists request,
             sent (world p2)
             = (sent (world p)
                ++ [(request, sql (getSqlQuery (inr TABLES_SQL)))])%list)
  /\ (forall p1 c,
        connect p = Returned tt p1 ->
        client (this p1) = Some c ->
        match engine_answer c TABLES_SQL p1 with
        | (inl err, db') =>
            buildSchema datasourceId entities p
            = Threw (new_Error err) (answered c TABLES_SQL db' p1)
        | (inr response, db') =>
            recordset response = None ->
            buildSchema datasourceId entities p
            = Threw fatal (answered c TABLES_SQL db' p1)
        end).
Proof.
  intros fatal. split; [split|split; [|split]].
  - unfold buildSchema. unfold_eff.
    destruct (connect p) as [[] p1|e1 p1] eqn:Hc.
    + destruct (runSQL TABLES_SQL p1) as [[records|] p2'|e2 p2'] eqn:Hl.
      * destruct (buildSchema_tables _ _ p2') as [fresh p3|e3 p3] eqn:Ht;
          [done|].
        intros [= -> _]. exfalso.
        apply (for_of_throws (fun e => exists n m, e = ThrowError n m))
          in Ht as (? & ? & [=]).
        intros ?????. apply buildSchema_table_Threw.
      * intros [= <-]. by exists p1.
      * intros [= -> _]. by apply runSQL_Threw in Hl as (? & ? & [=]).
    + intros [= -> _]. exfalso.
      pose proof (connect_cases p) as Hcases.
      destruct (pool (this p)) as [pl|]; [|by rewrite Hc in Hcases].
      destruct (pool_connect pl (db (world p))) as [[err|] db'];
        by rewrite Hc in Hcases.
  - intros (p1 & Hc & Hl). unfold buildSchema. unfold_eff. by rewrite Hc, Hl.
  - intros p1 e Hc Hl. unfold buildSchema. unfold_eff. by rewrite Hc, Hl.
  - intros p1 Hc Hcase.
    assert (schema_fields p2 = schema_fields p) as [= Ht He].
    { rewrite <- (keeps_Returned _ _ _ _ _ connect_keeps_schema_fields Hc).
      destruct Hcase as [Hl|[e Hl]].
      - by rewrite (keeps_Returned _ _ _ _ _ (runSQL_keeps_schema_fields _) Hl).
      - by rewrite (keeps_Threw _ _ _ _ _ (runSQL_keeps_schema_fields _) Hl). }
    split; [done|]. split; [done|].
    destruct (runSQL_sent TABLES_SQL p1 (connect_Returned _ _ Hc))
      as [request Hs].
    exists request.
    rewrite <- (keeps_Returned _ _ _ _ _ connect_keeps_sent Hc).
    by destruct Hcase as [Hl|[e Hl]]; rewrite Hl in Hs.
  - intros p1 c Hc Hclient. unfold buildSchema. unfold_eff. rewrite Hc.
    rewrite (runSQL_answered c) by done.
    destruct (engine_answer c TABLES_SQL p1) as [[err|response] db'];
      [done|].
    by intros ->.
Qed.

End BuildSchema.

Section FreshTables.
Context {DB : Type} `{!Driver DB} `{!Utils}.

(** The table one turn of the loop adds. *)
Lemma buildSchema_table_Returned (datasourceId : string)
    (acc acc' : gmap string Table.t) (tableName : JsVal) (p p' : Process DB) :
  buildSchema_table datasourceId acc tableName p = Returned acc' p' ->
  exists definition constraints columns,
    acc' = assign (ToString tableName)
             {| Table._id := buildExternalTableId datasourceId tableName;
                Table.primary := primaryKeys_of constraints;
                Table.name := tableName;
                Table.schema := schema_of definition (autoColumns_of columns) |}
             acc.
Proof.
  unfold buildSchema_table, array_or_throw. unfold_eff.
  destruct (runSQL _ p) as [definition p1|e1 p1]; [|done].
  destruct (runSQL _ p1) as [constraints p2|e2 p2]; [|done].
  destruct (runSQL _ p2) as [columns p3|e3 p3]; [|done].
  destruct constraints as [constraints|]; [|done].
  destruct columns as [columns|]; [|done].
  destruct definition as [definition|]; [|done].
  intros [= <- _]. by exists definition, constraints, columns.
Qed.

(** Every table of the loop's result is the table of one of the names,
    stored under that name, with the identifier made from the datasource
    and that name. *)
Lemma buildSchema_tables_Returned (datasourceId : string)
    (tableNames : list JsVal) (p p' : Process DB) (fresh : gmap string Table.t)
    (k : string) (t : Table.t) :
  buildSchema_tables datasourceId tableNames p = Returned fresh p' ->
  fresh !! k = Some t ->
  Table.name t ∈ tableNames
  /\ k = ToString (Table.name t)
  /\ Table._id t = buildExternalTableId datasourceId (Table.name t).
Proof.
  intros Hloop. revert k t. unfold buildSchema_tables in Hloop.
  refine (for_of_invariant
            (fun acc : gmap string Table.t => forall k t, acc !! k = Some t ->
               Table.name t ∈ tableNames
               /\ k = ToString (Table.name t)
               /\ Table._id t
                  = buildExternalTableId datasourceId (Table.name t))
            _ _ _ _ _ _ _ _ Hloop).
  - intros acc tableName s1 acc' s2 Hin Hacc
      (definition & constraints & columns & ->)%buildSchema_table_Returned k t.
    rewrite lookup_assign. case_decide as Hproto; [apply Hacc|].
    case_decide as Hk.
    + intros [= <-]. by subst k.
    + apply Hacc.
  - intros k t. by rewrite lookup_empty.
Qed.

(** A name that passed the filter of lines 192-194 names no master table,
    and neither does the property key it is stored under. *)
Lemma candidate_names_not_master (records : list Obj) (n : JsVal) :
  n ∈ candidate_names records ->
  (ToString n ∉ MASTER_TABLES)
  /\ (forall d, d ∈ MASTER_TABLES -> n <> JStr d).
Proof.
  unfold candidate_names. rewrite list_elem_of_In, filter_In.
  intros [_ Hkeep]. unfold indexOf_is_minus_one in Hkeep.
  apply negb_true_iff in Hkeep.
  assert (forall d, d ∈ MASTER_TABLES -> n <> JStr d) as Hne.
  { intros d Hd ->. apply not_true_iff_false in Hkeep. apply Hkeep.
    apply existsb_exists. exists d. split; [by apply list_elem_of_In|].
    unfold strict_eq. by apply bool_decide_eq_true. }
  split; [|done].
  destruct n as [| |[]|z|s]; simpl.
  1-4: intros Hin; repeat (apply elem_of_cons in Hin as [Hin|Hin]; [done|]);
       by apply elem_of_nil in Hin.
  - apply ToString_number_not_master.
  - intros Hin. by apply (Hne s).
Qed.

(** C7.  The identifier of every table [buildSchema] introspects is
    [buildExternalTableId] of the datasource's identifier and the table's
    name, and of nothing else: in two runs for one datasource, whatever the
    engine, the order of its catalog and the other tables in it, tables of
    the same name get the same identifier (and the same key). *)
Theorem buildSchema_ids_are_derived
    (datasourceId : string) (entitiesA entitiesB : gmap string Table.t)
    (pA pA' pB pB' : Process DB) :
  buildSchema datasourceId entitiesA pA = Returned tt pA' ->
  buildSchema datasourceId entitiesB pB = Returned tt pB' ->
  exists freshA freshB : gmap string Table.t,
    tables (this pA') = final_tables (finaliseExternalTables freshA entitiesA)
    /\ tables (this pB') = final_tables (finaliseExternalTables freshB entitiesB)
    /\ (forall k t, freshA !! k = Some t ->
          Table._id t = buildExternalTableId datasourceId (Table.name t))
    /\ (forall k t, freshB !! k = Some t ->
          Table._id t = buildExternalTableId datasourceId (Table.name t))
    /\ (forall kA kB tA tB,
          freshA !! kA = Some tA -> freshB !! kB = Some tB ->
          Table.name tA = Table.name tB ->
          Table._id tA = Table._id tB /\ kA = kB).
Proof.
  intros (a1 & recordsA & a2 & freshA & a3 & _ & _ & HA & ->)%buildSchema_Returned
         (b1 & recordsB & b2 & freshB & b3 & _ & _ & HB & ->)%buildSchema_Returned.
  exists freshA, freshB.
  split; [done|]. split; [done|]. split; [|split].
  - intros k t Ht.
    by destruct (buildSchema_tables_Returned _ _ _ _ _ _ _ HA Ht) as (_ & _ & ?).
  - intros k t Ht.
    by destruct (buildSchema_tables_Returned _ _ _ _ _ _ _ HB Ht) as (_ & _ & ?).
  - intros kA kB tA tB HtA HtB Hname.
    destruct (buildSchema_tables_Returned _ _ _ _ _ _ _ HA HtA)
      as (_ & -> & ->).
    destruct (buildSchema_tables_Returned _ _ _ _ _ _ _ HB HtB)
      as (_ & -> & ->).
    by rewrite Hname.
Qed.

(** C9.  No table of [MASTER_TABLES] is among the tables [buildSchema]
    introspects, whatever the catalog lists: for each of the five names,
    the fresh table set has no entry under it and no table named so. *)
Theorem buildSchema_excludes_master_tables
    (datasourceId : string) (entities : gmap string Table.t)
    (p p' : Process DB) :
  buildSchema datasourceId entities p = Returned tt p' ->
  exists fresh : gmap string Table.t,
    tables (this p') = final_tables (finaliseExternalTables fresh entities)
    /\ schemaErrors (this p')
       = final_errors (finaliseExternalTables fresh entities)
    /\ forall d, d ∈ MASTER_TABLES ->
         fresh !! d = None
         /\ forall k t, fresh !! k = Some t -> Table.name t <> JStr d.
Proof.
  intros (p1 & records & p2 & fresh & p3 & _ & _ & Hloop & ->)%buildSchema_Returned.
  exists fresh. split; [done|]. split; [done|].
  intros d Hd. split.
  - destruct (fresh !! d) as [t|] eqn:Ht; [|done].
    destruct (buildSchema_tables_Returned _ _ _ _ _ _ _ Hloop Ht)
      as (Hin & -> & _).
    by apply candidate_names_not_master in Hin as [Hkey _].
  - intros k t Ht.
    destruct (buildSchema_tables_Returned _ _ _ _ _ _ _ Hloop Ht)
      as (Hin & _ & _).
    apply candidate_names_not_master in Hin as [_ Hname]. by apply Hname.
Qed.

End FreshTables.

Section Schema.
Context `{Utils}.

(** [!!autoColumns.find((col) => col === name)]: the element found is the
    name itself, which is falsy when it is the empty string. *)
Lemma truthy_find_name (autoColumns : list JsVal) (name : string) :
  truthy (array_find (fun col => strict_eq col (JStr name)) autoColumns) = true
  <-> JStr name ∈ autoColumns /\ name <> "".
Proof.
  unfold array_find.
  destruct (find _ autoColumns) as [x|] eqn:Hfind; simpl.
  - apply find_some in Hfind as [Hin Hx].
    apply bool_decide_eq_true in Hx as ->. simpl.
    rewrite negb_true_iff, String.eqb_neq.
    split; [|by intros [_ ?]].
    intros Hne. split; [by apply list_elem_of_In|done].
  - split; [done|]. intros [Hin%list_elem_of_In _].
    apply (find_none _ _ Hfind) in Hin.
    unfold strict_eq in Hin. by rewrite bool_decide_eq_true_2 in Hin.
Qed.

(** The keys after the loop of lines 214-226: those before it and the
    [COLUMN_NAME]s that are strings, but for ["__proto__"], which no
    assignment makes a key. *)
Lemma schema_fold_keys (autoColumns : list JsVal) (definition : list Obj)
    (acc : gmap string Column.t) (k : string) :
  is_Some (fold_left (schema_step autoColumns) definition acc !! k)
  <-> is_Some (acc !! k)
      \/ (k <> "__proto__"
          /\ exists def, def ∈ definition /\ prop def "COLUMN_NAME" = JStr k).
Proof.
  revert acc. induction definition as [|def definition IH]; intros acc; simpl.
  - split; [by left|]. intros [?|(_ & def & Hin & _)]; [done|].
    by apply elem_of_nil in Hin.
  - rewrite IH. unfold schema_step.
    split.
    + intros [Hacc|(Hk & d & Hin & Hd)].
      * destruct (prop def "COLUMN_NAME") as [| | | |name] eqn:Hname;
          try by left.
        rewrite lookup_assign in Hacc.
        case_decide as Hproto; [by left|].
        case_decide as Hname'; [|by left].
        subst k. right. split; [done|]. exists def. split; [by left|done].
      * right. split; [done|]. exists d. split; [by right|done].
    + intros [Hacc|(Hk & d & Hin & Hd)].
      * left. destruct (prop def "COLUMN_NAME"); try done.
        rewrite lookup_assign. by repeat case_decide.
      * apply elem_of_cons in Hin as [->|Hin].
        -- left. rewrite Hd, lookup_assign.
           rewrite decide_False by done. by rewrite decide_True.
        -- right. split; [done|]. by exists d.
Qed.

(** Every entry the loop writes has its key for name and the flag that
    line 222 computes for it. *)
Lemma schema_fold_entries (autoColumns : list JsVal) (definition : list Obj)
    (acc : gmap string Column.t) (k : string) (c : Column.t) :
  let made_here (k : string) (c : Column.t) :=
    Column.name c = k
    /\ Column.autocolumn c
       = truthy (array_find (fun col => strict_eq col (JStr k)) autoColumns) in
  (forall k c, acc !! k = Some c -> made_here k c) ->
  fold_left (schema_step autoColumns) definition acc !! k = Some c ->
  made_here k c.
Proof.
  intros made_here. revert acc.
  induction definition as [|def definition IH]; intros acc Hacc; simpl.
  - apply Hacc.
  - apply IH. intros k' c'. unfold schema_step.
    destruct (prop def "COLUMN_NAME") as [| | | |name]; try apply Hacc.
    rewrite lookup_assign. case_decide as Hproto; [apply Hacc|].
    case_decide as Hk; [|apply Hacc].
    intros [= <-]. by subst k'.
Qed.

(** The loop of lines 214-226 makes no own property ["__proto__"]. *)
Lemma schema_fold_proto (autoColumns : list JsVal) (definition : list Obj)
    (acc : gmap string Column.t) :
  acc !! "__proto__" = None ->
  fold_left (schema_step autoColumns) definition acc !! "__proto__" = None.
Proof.
  revert acc. induction definition as [|def definition IH]; intros acc Hacc;
    simpl; [done|].
  apply IH. unfold schema_step.
  destruct (prop def "COLUMN_NAME"); try done. by apply lookup_assign_proto.
Qed.

(** C10.  The schema [buildSchema] makes of a table never has an entry
    under the key ["__proto__"], whatever the definition rows are: a column
    of that name, which a row gives as a string like any other, is not in
    the schema. *)
Theorem schema_has_no_entry_for_the_column_proto
    (definition columns : list Obj) :
  schema_of definition (autoColumns_of columns) !! "__proto__" = None.
Proof. unfold schema_of. by apply schema_fold_proto. Qed.

(** X15.  The schema of a table has an entry for exactly the
    [COLUMN_NAME]s of its definition rows that are strings other than
    ["__proto__"]: a row whose [COLUMN_NAME] is not a string adds nothing
    and stops nothing.  Each entry has its key for [name], and has
    [autocolumn] true exactly when the name is among the computed or
    identity columns and is not the empty string. *)
Theorem schema_has_the_string_named_columns
    (definition columns : list Obj) (k : string) :
  let schema := schema_of definition (autoColumns_of columns) in
  (is_Some (schema !! k)
   <-> k <> "__proto__"
       /\ exists def, def ∈ definition /\ prop def "COLUMN_NAME" = JStr k)
  /\ (forall c, schema !! k = Some c ->
        Column.name c = k
        /\ (Column.autocolumn c = true
            <-> JStr k ∈ autoColumns_of columns /\ k <> "")).
Proof.
  intros schema. subst schema. unfold schema_of. split.
  - rewrite schema_fold_keys. rewrite lookup_empty.
    split; [intros [[? [=]]|?]; done | by right].
  - intros c Hc.
    apply schema_fold_entries in Hc as [Hname Hauto];
      [|intros ? ?; by rewrite lookup_empty].
    split; [done|]. by rewrite Hauto, truthy_find_name.
Qed.

End Schema.

Section Crud.
Context {DB : Type} `{!Driver DB} `{!Utils}.

(** What each of the four methods throws is what its first two lines
    throw. *)
Lemma crud_Threw (query : SqlQuery + string) (p s : Process DB) (e : JsThrown) :
  read query p = Threw e s \/ create query p = Threw e s
  \/ update query p = Threw e s \/ delete query p = Threw e s ->
  run_given query p = Threw e s.
Proof.
  unfold read, create, update, delete, run_given. unfold_eff.
  destruct (connect p) as [[] p1|e1 p1]; simpl.
  - destruct (in_world _ p1) as [response p2|e2 p2]; simpl;
      intros [Hm|[Hm|[Hm|Hm]]]; try done; by injection Hm as -> ->.
  - intros [Hm|[Hm|[Hm|Hm]]]; by injection Hm as -> ->.
Qed.

(** C2, as amended.  On an object made by the constructor, whose pool is
    [pl], and for a query [given] to [read], [create], [update] or
    [delete]:

    - when [pool.connect()] rejects with [err], each of the four methods
      throws [new Error(err)];
    - when the pool connects and [request.query] rejects the statement
      with [err], each of the four methods throws [new Error(err)], in the
      process that rejection left;
    - the [queryFn] that [query] passes on, run with a client, throws
      [new Error(err)] when [request.query] rejects its statement with
      [err];
    - the four methods throw nothing else, and neither does [queryFn] with
      a client: what they throw is [new Error(err)] for a rejection [err]
      of the driver;
    - [new Error(err)] is a built-in [Error]; its message is [String(err)],
      which ends with the message of [err]. *)
Theorem crud_rejections_are_wrapped
    (given : SqlQuery + string) (q : SqlQuery) (op : string)
    (p : Process DB) (pl : ConnectionPool) :
  pool (this p) = Some pl ->
  let thrown_by_all (e : JsThrown) (p' : Process DB) :=
    read given p = Threw e p' /\ create given p = Threw e p'
    /\ update given p = Threw e p' /\ delete given p = Threw e p' in
  let request (c : ConnectionPool) (query : SqlQuery) :=
    declare_bindings {| req_pool := c; parameters := [] |} query in
  (forall err db1,
     pool_connect pl (db (world p)) = (Some err, db1) ->
     thrown_by_all (new_Error err)
       {| this := this p;
          world := {| db := db1; sent := sent (world p);
                      pools := pools (world p) |} |})
  /\ (forall db1 err db2,
        pool_connect pl (db (world p)) = (None, db1) ->
        request_query (request pl (getSqlQuery given))
          (sql (getSqlQuery given)) db1 = (inl err, db2) ->
        thrown_by_all (new_Error err)
          {| this := set_client pl (this p);
             world := {| db := db2;
                         sent := sent (world p)
                                 ++ [(request pl (getSqlQuery given),
                                      sql (getSqlQuery given))];
                         pools := pools (world p) |} |})
  /\ (forall c err db1,
        client (this p) = Some c ->
        request_query (request c q) (sent_text q (Some op)) (db (world p))
        = (inl err, db1) ->
        queryFn q op p
        = Threw (new_Error err)
            {| this := this p;
               world := {| db := db1;
                           sent := sent (world p)
                                   ++ [(request c q, sent_text q (Some op))];
                           pools := pools (world p) |} |})
  /\ (forall e s,
        read given p = Threw e s \/ create given p = Threw e s
        \/ update given p = Threw e s \/ delete given p = Threw e s
        \/ (is_Some (client (this p)) /\ queryFn q op p = Threw e s) ->
        exists err, raised_by_driver err /\ e = new_Error err)
  /\ (forall err,
        is_builtin_Error (new_Error err) = true
        /\ message_of (new_Error err) = Some (String_of err)
        /\ exists before, String_of err = before +:+ original_message err).
Proof.
  intros Hpool thrown_by_all request.
  pose proof (connect_cases p) as Hconnect. rewrite Hpool in Hconnect.
  split; [|split; [|split; [|split]]].
  - intros err db1 Hrejects. rewrite Hrejects in Hconnect.
    unfold thrown_by_all, read, create, update, delete. unfold_eff.
    by rewrite Hconnect.
  - intros db1 err db2 Hconnects Hrejects. rewrite Hconnects in Hconnect.
    unfold thrown_by_all, read, create, update, delete. unfold_eff.
    rewrite Hconnect. simpl. unfold in_world.
    rewrite internalQuery_client. simpl.
    unfold sent_text. rewrite bool_decide_eq_false_2 by done.
    fold (request pl (getSqlQuery given)). by rewrite Hrejects.
  - intros c err db1 Hclient Hrejects.
    unfold queryFn. unfold_eff. rewrite Hclient. unfold in_world.
    rewrite internalQuery_client. fold (request c q). by rewrite Hrejects.
  - intros e s Hthrown.
    assert (read given p = Threw e s \/ create given p = Threw e s
            \/ update given p = Threw e s \/ delete given p = Threw e s
            \/ (is_Some (client (this p)) /\ queryFn q op p = Threw e s))
      as [Hm|[Hm|[Hm|[Hm|[[c Hc] Hfn]]]]] by exact Hthrown.
    1-4: eapply (run_given_Threw given p s); [by eexists|];
         apply crud_Threw; eauto.
    unfold queryFn in Hfn. unfold_eff. rewrite Hc in Hfn.
    apply in_world_Threw in Hfn. by eapply internalQuery_Threw.
  - intros err. split; [done|]. split; [done|].
    destruct err as [msg|name message]; [by exists ""|].
    apply String_of_ends_with_message.
Qed.

(** The response the first two lines got decides what the methods
    return. *)
Lemma crud_Returned (query : SqlQuery + string) (p s : Process DB)
    (response : Response) :
  run_given query p = Returned response s ->
  read query p = Returned (recordset response) s
  /\ create query p
     = Returned (or_array (recordset response)
                   [ {[ "created" := JBool true ]} ]) s
  /\ update query p
     = Returned (or_array (recordset response)
                   [ {[ "updated" := JBool true ]} ]) s
  /\ delete query p
     = Returned (or_array (recordset response)
                   [ {[ "deleted" := JBool true ]} ]) s.
Proof.
  unfold read, create, update, delete, run_given. unfold_eff.
  destruct (connect p) as [[] p1|e1 p1]; simpl; [|done].
  destruct (in_world _ p1) as [r p2|e2 p2]; simpl; [|done].
  by intros [= -> ->].
Qed.

(** C3, as amended.  When the response of the driver has no [recordset],
    [create], [update] and [delete] return the one-element array holding
    the marker [{ created: true }], [{ updated: true }] or
    [{ deleted: true }], and [processFn] of [query] the marker keyed by the
    operation it was given.  When the response has a [recordset], that
    array is returned as it is, be it empty. *)
Theorem crud_result_without_recordset
    (query : SqlQuery + string) (p s : Process DB) (response : Response)
    (operation : string) :
  run_given query p = Returned response s ->
  (recordset response = None ->
   create query p = Returned [ {[ "created" := JBool true ]} ] s
   /\ update query p = Returned [ {[ "updated" := JBool true ]} ] s
   /\ delete query p = Returned [ {[ "deleted" := JBool true ]} ] s
   /\ processFn operation response = [ {[ operation := JBool true ]} ])
  /\ (forall rows, recordset response = Some rows ->
      create query p = Returned rows s
      /\ update query p = Returned rows s
      /\ delete query p = Returned rows s
      /\ processFn operation response = rows).
Proof.
  intros (_ & Hc & Hu & Hd)%crud_Returned.
  unfold processFn, or_array in *.
  split; [intros Hnone | intros rows Hrows].
  - by rewrite Hnone in *.
  - by rewrite Hrows in *.
Qed.

(** C4.  Two objects made with the same configuration hold two pools: each
    [new SqlServerIntegration(config)] constructs a pool, since
    [this.pool] is not defined on the new object, and [connect] constructs
    none and keeps the pool of its object. *)
Theorem constructor_makes_a_pool_each_time (cfg : MSSQLConfig) (w : World DB) :
  let '(o1, w1) := constructor cfg w in
  let '(o2, w2) := constructor cfg w1 in
  length (pools w2) = 2 + length (pools w)
  /\ pool o1 <> pool o2
  /\ (pool_cfg <$> pool o1) = (pool_cfg <$> pool o2)
  /\ (forall p, (pool (this (final_state (connect p))),
                 pools (world (final_state (connect p))))
                = (pool (this p), pools (world p))).
Proof.
  unfold constructor, new_ConnectionPool. simpl.
  repeat split.
  - rewrite !length_app. simpl. lia.
  - intros [= Hid]. rewrite length_app in Hid. simpl in Hid. lia.
  - apply connect_keeps_pools.
Qed.

(** C5.  [internalQuery] hands the engine one text in one request: for the
    operation [Operation.CREATE] the statement followed by
    ["; SELECT SCOPE_IDENTITY() AS id;"], for any other operation, and for
    none, the statement alone. *)
Theorem internalQuery_appends_identity_fetch_to_CREATE
    (c : ConnectionPool) (query : SqlQuery) (operation : option string)
    (w : World DB) :
  (exists request,
     sent (final_state (internalQuery (Some c) query (Some Operation_CREATE) w))
     = (sent w
        ++ [(request, sql query +:+ "; SELECT SCOPE_IDENTITY() AS id;")])%list)
  /\ (operation <> Some Operation_CREATE ->
      exists request,
        sent (final_state (internalQuery (Some c) query operation w))
        = (sent w ++ [(request, sql query)])%list).
Proof.
  split; [|intros Hop]; rewrite internalQuery_client; unfold sent_text.
  - rewrite bool_decide_eq_true_2 by done.
    destruct (request_query _ _ _) as [[err|response] db']; by eexists.
  - rewrite bool_decide_eq_false_2 by done.
    destruct (request_query _ _ _) as [[err|response] db']; by eexists.
Qed.

(** C8, as amended.  [internalQuery] gives the engine the bindings of a
    query as the parameters [p0], [p1], ... of the request, in the order of
    the bindings, and the text of the query as it was given, followed by
    the identity fetch for a [CREATE]: the text is the same whatever the
    bindings are, and [internalQuery] writes no value into it.  Every
    placeholder the text of the query has is in the text the engine
    receives. *)
Theorem internalQuery_binds_positionally
    (c : ConnectionPool) (query : SqlQuery) (operation : option string)
    (bs : list JsVal) (w : World DB) :
  bindings query = Some bs ->
  let text :=
    if bool_decide (operation = Some Operation_CREATE)
    then sql query +:+ "; SELECT SCOPE_IDENTITY() AS id;"
    else sql query in
  exists request,
    sent (final_state (internalQuery (Some c) query operation w))
    = (sent w ++ [(request, text)])%list
    /\ parameters request
       = imap (fun i b => ("p" +:+ ToString (JNum (Z.of_nat i)), b)) bs
    /\ (forall bs' w', exists request',
          sent (final_state
                  (internalQuery (Some c)
                     {| sql := sql query; bindings := bs' |} operation w'))
          = (sent w' ++ [(request', text)])%list)
    /\ (forall i, includes (placeholder i) (sql query) = true ->
                  includes (placeholder i) text = true).
Proof.
  intros Hbs text.
  exists (declare_bindings {| req_pool := c; parameters := [] |} query).
  split; [|split; [|split]].
  - rewrite internalQuery_client.
    by destruct (request_query _ _ _) as [[err|response] db'].
  - unfold declare_bindings. rewrite Hbs.
    by rewrite input_bindings_parameters.
  - intros bs' w'. rewrite internalQuery_client.
    destruct (request_query _ _ _) as [[err|response] db']; by eexists.
  - intros i Hi. unfold text. case_bool_decide; [|done].
    by apply includes_app.
Qed.

End Crud.

(** * More of the integration *)

(** The decimal form of a number determines the number. *)
Lemma ToString_number_inj (n m : Z) :
  ToString (JNum n) = ToString (JNum m) -> n = m.
Proof.
  simpl. intros Heq. apply DecimalZ.to_int_inj.
  assert (forall z, Z.to_int z <> Decimal.Pos Decimal.Nil
                    /\ Z.to_int z <> Decimal.Neg Decimal.Nil) as Hnil.
  { intros [|q|q]; simpl; split; try done;
      intros [= Hq]; by apply DecimalPos.Unsigned.to_uint_nonnil in Hq. }
  destruct (Hnil n) as [Hn1 Hn2], (Hnil m) as [Hm1 Hm2].
  pose proof (NilZero.isi _ Hn1 Hn2) as Hn.
  pose proof (NilZero.isi _ Hm1 Hm2) as Hm.
  rewrite Heq in Hn. rewrite Hn in Hm. by injection Hm.
Qed.

Lemma imap_snd {A B} (f : nat -> A) (l : list B) :
  snd <$> imap (fun i b => (f i, b)) l = l.
Proof.
  revert f. induction l as [|b l IH]; intros f; [done|].
  simpl. f_equal. apply (IH (f ∘ S)).
Qed.

Section MoreFacts.
Context {DB : Type} `{!Driver DB} `{!Utils}.

(** ** [connect] *)

(** X1.  When [connect] returns, the client of the object is the pool of
    the object, which is the pool it had; nothing else of the object has
    changed, no statement has been sent and no pool constructed.  A second
    [connect] that returns leaves the object as the first left it. *)
Theorem connect_makes_the_pool_the_client (p p1 : Process DB) :
  connect p = Returned tt p1 ->
  is_Some (pool (this p))
  /\ client (this p1) = pool (this p)
  /\ pool (this p1) = pool (this p)
  /\ config (this p1) = config (this p)
  /\ tables (this p1) = tables (this p)
  /\ schemaErrors (this p1) = schemaErrors (this p)
  /\ sent (world p1) = sent (world p)
  /\ pools (world p1) = pools (world p)
  /\ (forall p2, connect p1 = Returned tt p2 -> this p2 = this p1).
Proof.
  intros Hc. pose proof (connect_cases p) as Hcases.
  destruct (pool (this p)) as [pl|] eqn:Hp; [|by rewrite Hc in Hcases].
  destruct (pool_connect pl (db (world p))) as [[err|] db'];
    rewrite Hc in Hcases; [done|].
  injection Hcases as ->. simpl. rewrite Hp.
  repeat split; try done.
  intros p2 Hc2.
  match type of Hc2 with connect ?q = _ => pose proof (connect_cases q) as H2 end.
  simpl in H2. rewrite Hp in H2.
  destruct (pool_connect pl db') as [[err|] db'']; rewrite Hc2 in H2; [done|].
  injection H2 as ->. simpl. unfold set_client. simpl. by rewrite Hp.
Qed.

(** X2.  When [pool.connect()] rejects with [err], each of [buildSchema],
    [read], [create], [update], [delete] and [query] throws
    [new Error(err)]; the object is as it was, no statement has been sent,
    and [queryWithReturning] has not been called: the outcome is the same
    whatever it is. *)
Theorem nothing_runs_without_a_connection
    (p : Process DB) (pl : ConnectionPool) (err : JsThrown) (db' : DB)
    (datasourceId : string) (entities : gmap string Table.t)
    (given : SqlQuery + string) :
  pool (this p) = Some pl ->
  pool_connect pl (db (world p)) = (Some err, db') ->
  let p' := {| this := this p;
               world := {| db := db'; sent := sent (world p);
                           pools := pools (world p) |} |} in
  buildSchema datasourceId entities p = Threw (new_Error err) p'
  /\ read given p = Threw (new_Error err) p'
  /\ create given p = Threw (new_Error err) p'
  /\ update given p = Threw (new_Error err) p'
  /\ delete given p = Threw (new_Error err) p'
  /\ (forall (QueryJson Result : Type) (_operation : QueryJson -> string)
             queryWithReturning (json : QueryJson),
        query (Result := Result) _operation queryWithReturning json p
        = Threw (new_Error err) p').
Proof.
  intros Hp Hd p'. pose proof (connect_cases p) as Hc.
  rewrite Hp in Hc. simpl in Hc. rewrite Hd in Hc.
  unfold buildSchema, read, create, update, delete, query. unfold_eff.
  rewrite Hc. by repeat split.
Qed.

(** ** [runSQL] and [internalQuery] *)

(** X3.  On an object that has not connected, as the constructor leaves
    it, [runSQL] throws the [TypeError] of [client.request()] as it is, not
    wrapped in an [Error]; nothing is sent and nothing changes. *)
Theorem runSQL_needs_a_client (cfg : MSSQLConfig) (w : World DB)
    (text : string) (p : Process DB) :
  client (fst (constructor cfg w)) = None
  /\ (client (this p) = None ->
      runSQL text p = Threw (TypeError_undefined "request") p
      /\ is_builtin_Error (TypeError_undefined "request") = false).
Proof.
  split; [done|]. intros Hc. split; [|done].
  unfold runSQL, in_world, internalQuery, client_request. unfold_eff.
  rewrite Hc. simpl. by destruct p.
Qed.

(** X4.  The names of the parameters [internalQuery] declares on the
    request are pairwise distinct, and there is one parameter for each
    binding: none when [query.bindings] is not an array. *)
Theorem internalQuery_parameter_names_are_distinct
    (c : ConnectionPool) (query : SqlQuery) (operation : option string)
    (w : World DB) :
  exists request text,
    sent (final_state (internalQuery (Some c) query operation w))
    = (sent w ++ [(request, text)])%list
    /\ NoDup (fst <$> parameters request)
    /\ snd <$> parameters request = default [] (bindings query).
Proof.
  exists (declare_bindings {| req_pool := c; parameters := [] |} query),
         (sent_text query operation).
  split; [|split].
  - rewrite internalQuery_client.
    by destruct (request_query _ _ _) as [[e|r] db'].
  - unfold declare_bindings. destruct (bindings query) as [bs|]; simpl;
      [|constructor].
    rewrite input_bindings_parameters. simpl.
    rewrite fmap_imap. apply NoDup_alt. intros i j name.
    rewrite !list_lookup_imap.
    destruct (bs !! i) as [bi|] eqn:Hi; [|done].
    destruct (bs !! j) as [bj|] eqn:Hj; [|done].
    simpl. intros [= <-] [= Heq%ToString_number_inj]. lia.
  - unfold declare_bindings. destruct (bindings query) as [bs|]; [|done].
    rewrite input_bindings_parameters. simpl. apply imap_snd.
Qed.

(** ** [read], [create], [update], [delete] *)

(** X5.  Once connected, each of [read], [create], [update] and [delete]
    hands the engine one statement, whose text is the text of the query it
    was given: [create] does not append the fetch of the identity. *)
Theorem methods_send_the_text_as_given
    (given : SqlQuery + string) (p p1 : Process DB) :
  connect p = Returned tt p1 ->
  exists request,
    let expected :=
      (sent (world p) ++ [(request, sql (getSqlQuery given))])%list in
    sent (world (final_state (read given p))) = expected
    /\ sent (world (final_state (create given p))) = expected
    /\ sent (world (final_state (update given p))) = expected
    /\ sent (world (final_state (delete given p))) = expected.
Proof.
  intros Hc. destruct (connect_Returned _ _ Hc) as [c Hcl].
  pose proof (keeps_Returned _ _ _ _ _ connect_keeps_sent Hc) as Hs.
  simpl in Hs.
  exists (declare_bindings {| req_pool := c; parameters := [] |}
            (getSqlQuery given)).
  unfold read, create, update, delete. unfold_eff. rewrite Hc, Hcl.
  unfold in_world. rewrite internalQuery_client.
  unfold sent_text. rewrite bool_decide_eq_false_2 by done.
  destruct (request_query _ _ _) as [[e|r] db']; simpl; by rewrite Hs.
Qed.

(** ** [buildSchema] *)

Lemma runSQL_Returned (text : string) (p p' : Process DB)
    (r : option (list Obj)) :
  is_Some (client (this p)) ->
  runSQL text p = Returned r p' ->
  this p' = this p
  /\ snd <$> sent (world p')
     = ((snd <$> sent (world p)) ++ [sql (getSqlQuery (inr text))])%list.
Proof.
  intros Hc Hr. split.
  - by rewrite <- (keeps_Returned _ _ _ _ _ (runSQL_keeps_this text) Hr).
  - destruct (runSQL_sent text p Hc) as [request Hs].
    rewrite Hr in Hs. simpl in Hs. rewrite Hs. by rewrite fmap_app.
Qed.

Lemma buildSchema_table_texts (datasourceId : string)
    (acc acc' : gmap string Table.t) (tableName : JsVal) (p p' : Process DB) :
  is_Some (client (this p)) ->
  buildSchema_table datasourceId acc tableName p = Returned acc' p' ->
  this p' = this p
  /\ snd <$> sent (world p')
     = ((snd <$> sent (world p)) ++ metadata_texts tableName)%list.
Proof.
  intros Hc. unfold buildSchema_table, array_or_throw. unfold_eff.
  destruct (runSQL _ p) as [definition p1|e1 p1] eqn:H1; [|done].
  destruct (runSQL_Returned _ _ _ _ Hc H1) as [Ht1 Hs1].
  rewrite <- Ht1 in Hc.
  destruct (runSQL _ p1) as [constraints p2|e2 p2] eqn:H2; [|done].
  destruct (runSQL_Returned _ _ _ _ Hc H2) as [Ht2 Hs2].
  rewrite <- Ht2 in Hc.
  destruct (runSQL _ p2) as [columns p3|e3 p3] eqn:H3; [|done].
  destruct (runSQL_Returned _ _ _ _ Hc H3) as [Ht3 Hs3].
  destruct constraints; [|done]. destruct columns; [|done].
  destruct definition; [|done]. intros [= _ <-].
  split; [congruence|].
  rewrite Hs3, Hs2, Hs1. unfold metadata_texts.
  by rewrite <- !app_assoc.
Qed.

Lemma buildSchema_tables_texts (datasourceId : string)
    (tableNames : list JsVal) (acc fresh : gmap string Table.t)
    (p p' : Process DB) :
  is_Some (client (this p)) ->
  for_of tableNames (buildSchema_table datasourceId) acc p = Returned fresh p' ->
  snd <$> sent (world p')
  = ((snd <$> sent (world p)) ++ flat_map metadata_texts tableNames)%list.
Proof.
  revert acc p. induction tableNames as [|n tableNames IH]; intros acc p Hc.
  - simpl. unfold_eff. intros [= _ <-]. by rewrite app_nil_r.
  - simpl. unfold_eff.
    destruct (buildSchema_table _ acc n p) as [acc1 p1|e1 p1] eqn:Hn; [|done].
    destruct (buildSchema_table_texts _ _ _ _ _ _ Hc Hn) as [Ht Hs].
    intros Hrest. apply IH in Hrest; [|by rewrite Ht].
    rewrite Hrest, Hs. by rewrite <- app_assoc.
Qed.

(** X6.  The statements a [buildSchema] that returns has sent are the
    catalog statement and then, for each name of the catalog that is not
    in [MASTER_TABLES], in the order of the catalog, the three metadata
    statements of that name: definition, constraints, auto columns. *)
Theorem buildSchema_statements
    (datasourceId : string) (entities : gmap string Table.t)
    (p p' : Process DB) :
  buildSchema datasourceId entities p = Returned tt p' ->
  exists p1 p2 records,
    connect p = Returned tt p1
    /\ runSQL TABLES_SQL p1 = Returned (Some records) p2
    /\ snd <$> sent (world p')
       = ((snd <$> sent (world p))
          ++ sql (getSqlQuery (inr TABLES_SQL))
             :: flat_map metadata_texts (candidate_names records))%list.
Proof.
  intros (p1 & records & p2 & fresh & p3 & Hc & Hl & Hloop & ->)%buildSchema_Returned.
  exists p1, p2, records. split; [done|]. split; [done|]. simpl.
  pose proof (connect_Returned _ _ Hc) as Hcl.
  destruct (runSQL_Returned _ _ _ _ Hcl Hl) as [Ht Hs].
  rewrite <- Ht in Hcl.
  rewrite (buildSchema_tables_texts _ _ _ _ _ _ Hcl Hloop), Hs.
  pose proof (keeps_Returned _ _ _ _ _ connect_keeps_sent Hc) as Hs0.
  simpl in Hs0. rewrite Hs0. by rewrite <- app_assoc.
Qed.

Lemma buildSchema_tables_keys (datasourceId : string)
    (tableNames : list JsVal) (acc fresh : gmap string Table.t)
    (p p' : Process DB) (key : string) :
  for_of tableNames (buildSchema_table datasourceId) acc p = Returned fresh p' ->
  is_Some (fresh !! key)
  <-> is_Some (acc !! key)
      \/ (key <> "__proto__"
          /\ exists n, n ∈ tableNames /\ ToString n = key).
Proof.
  revert acc p. induction tableNames as [|n tableNames IH]; intros acc p.
  - simpl. unfold_eff. intros [= <- _].
    split; [by left|]. intros [?|(_ & n & Hin & _)]; [done|].
    by apply elem_of_nil in Hin.
  - simpl. unfold_eff.
    destruct (buildSchema_table _ acc n p) as [acc1 p1|e1 p1] eqn:Hn; [|done].
    apply buildSchema_table_Returned in Hn as (d & c & a & ->).
    intros ->%IH. rewrite lookup_assign. split.
    + intros [Hacc|(Hkey & m & Hin & Hm)].
      * case_decide as Hproto; [by left|].
        case_decide as Hn; [|by left].
        right. split; [by subst key|]. exists n. split; [by left|done].
      * right. split; [done|]. exists m. split; [by right|done].
    + intros [Hacc|(Hkey & m & Hin & Hm)].
      * left. by repeat case_decide.
      * apply elem_of_cons in Hin as [->|Hin].
        -- left. rewrite decide_False by (by rewrite Hm).
           by rewrite decide_True.
        -- right. split; [done|]. by exists m.
Qed.

(** X7.  The tables a [buildSchema] that returns has introspected are one
    for each name of the catalog that is not in [MASTER_TABLES], under the
    name as a string, but for the key ["__proto__"], under which no table
    is kept: no other is missing.  Two catalog rows of one name give one
    table. *)
Theorem buildSchema_introspects_every_candidate
    (datasourceId : string) (entities : gmap string Table.t)
    (p p' : Process DB) :
  buildSchema datasourceId entities p = Returned tt p' ->
  exists p1 p2 records (fresh : gmap string Table.t),
    connect p = Returned tt p1
    /\ runSQL TABLES_SQL p1 = Returned (Some records) p2
    /\ tables (this p') = final_tables (finaliseExternalTables fresh entities)
    /\ forall key,
         is_Some (fresh !! key)
         <-> key <> "__proto__"
             /\ exists n, n ∈ candidate_names records /\ ToString n = key.
Proof.
  intros (p1 & records & p2 & fresh & p3 & Hc & Hl & Hloop & ->)%buildSchema_Returned.
  exists p1, p2, records, fresh.
  split; [done|]. split; [done|]. split; [done|].
  intros key. unfold buildSchema_tables in Hloop.
  rewrite (buildSchema_tables_keys _ _ _ _ _ _ key Hloop), lookup_empty.
  split; [|by right].
  intros [Hkey|Hkey]; [by destruct Hkey|done].
Qed.

End MoreFacts.

Section MoreSchema.
Context `{!Utils}.

(** Rows of other names leave the entry of a name alone. *)
Lemma schema_fold_other (autoColumns : list JsVal) (definition : list Obj)
    (acc : gmap string Column.t) (k : string) :
  (forall def, def ∈ definition -> prop def "COLUMN_NAME" <> JStr k) ->
  fold_left (schema_step autoColumns) definition acc !! k = acc !! k.
Proof.
  revert acc. induction definition as [|def definition IH]; intros acc Hother;
    simpl; [done|].
  rewrite IH by (intros d Hd; apply Hother; by right).
  unfold schema_step.
  destruct (prop def "COLUMN_NAME") as [| | | |name] eqn:Hname; try done.
  rewrite lookup_assign. case_decide; [done|].
  rewrite decide_False; [done|]. intros ->. by apply (Hother def); [left|].
Qed.

(** X8.  When several definition rows have the same [COLUMN_NAME], a
    string other than ["__proto__"], the last of them decides the entry:
    its type is [convertSqlType] of the [DATA_TYPE] of that row. *)
Theorem schema_takes_the_last_row
    (before after : list Obj) (def : Obj) (autoColumns : list JsVal)
    (k : string) :
  prop def "COLUMN_NAME" = JStr k ->
  k <> "__proto__" ->
  (forall d, d ∈ after -> prop d "COLUMN_NAME" <> JStr k) ->
  schema_of (before ++ def :: after) autoColumns !! k
  = Some {| Column.autocolumn :=
              truthy (array_find (fun col => strict_eq col (JStr k))
                                 autoColumns);
            Column.name := k;
            Column.type := convertSqlType (prop def "DATA_TYPE") |}.
Proof.
  intros Hk Hproto Hafter. unfold schema_of.
  rewrite fold_left_app. simpl. rewrite schema_fold_other by done.
  unfold schema_step at 1. rewrite Hk, lookup_assign.
  rewrite decide_False by done. by rewrite decide_True.
Qed.

End MoreSchema.

(** * The webhook controller: properties *)

Module WebhookFacts.
Import Webhook.

Ltac unfold_handler :=
  unfold mbind, mret, Handler_bind, Handler_ret, param, of_sum, call,
    set_request_body_prop, set_status, set_body, read_ctx, and_then,
    Webhook.try_catch, resolve, reject in *.

(** One step through a handler: a case on what it inspects next. *)
Ltac handler_step :=
  match goal with
  | |- context [match ?x with _ => _ end] =>
      lazymatch x with
      | context [match _ with _ => _ end] => fail
      | _ => destruct x eqn:?
      end
  end; simpl in *.

Section Facts.
Context {S : Type} `{!Services S}.

(** The context the [try] block of [trigger] leaves: untouched when the
    block throws, with the status and the body set when it completes. *)
Lemma trigger_try_ctx (prodAppId : Json) (ctx : Ctx) (s : S) :
  match trigger_try prodAppId ctx s with
  | Resolved _ ctx' _ =>
      ctx' = {| appId := appId ctx; params := params ctx;
                request_body := request_body ctx; status := Num 200;
                body := Obj {[ "message" :=
                                 Str "Webhook trigger fired successfully" ]} |}
  | Rejected _ ctx' _ => ctx' = ctx
  end.
Proof.
  unfold trigger_try. unfold_handler. repeat handler_step; by simplify_eq.
Qed.

(** X9.  An error object thrown in the [try] block of [trigger] whose
    [status] is not the number 404 is swallowed: [trigger] resolves, and
    the context, its status and its body included, is as it was. *)
Theorem trigger_swallows_what_is_not_a_404
    (ctx ctx' : Ctx) (s s' : S) (prodAppId err err_status : Json) :
  getDeployedAppID (default Undefined (params ctx !! "instance"))
  = inr prodAppId ->
  trigger_try prodAppId ctx s = Rejected err ctx' s' ->
  get_prop err "status" = inr err_status ->
  is_number err_status 404 = false ->
  trigger ctx s = Resolved tt ctx s'.
Proof.
  intros Hid Htry Hstatus Hnot. pose proof (trigger_try_ctx prodAppId ctx s) as Hctx.
  rewrite Htry in Hctx. subst ctx'.
  unfold trigger, trigger_catch. unfold_handler.
  rewrite Hid. simpl. rewrite Htry, Hstatus. simpl. by rewrite Hnot.
Qed.

(** X10.  An error thrown in the [try] block of [trigger] whose [status]
    is the number 404, by whichever step (the webhook that is not there,
    its target that is not there, the automation that fails so), is
    answered with the status 200 and the message
    ["Application not deployed yet."]. *)
Theorem trigger_answers_a_404_as_not_deployed
    (ctx ctx' : Ctx) (s s' : S) (prodAppId err : Json) :
  getDeployedAppID (default Undefined (params ctx !! "instance"))
  = inr prodAppId ->
  trigger_try prodAppId ctx s = Rejected err ctx' s' ->
  get_prop err "status" = inr (Num 404) ->
  trigger ctx s
  = Resolved tt
      {| appId := appId ctx; params := params ctx;
         request_body := request_body ctx; status := Num 200;
         body := Obj {[ "message" := Str "Application not deployed yet." ]} |}
      s'.
Proof.
  intros Hid Htry Hstatus. pose proof (trigger_try_ctx prodAppId ctx s) as Hctx.
  rewrite Htry in Hctx. subst ctx'.
  unfold trigger, trigger_catch. unfold_handler.
  rewrite Hid. simpl. by rewrite Htry, Hstatus.
Qed.

(** X11.  [trigger] rejects in two cases only: [getDeployedAppID] threw,
    or what was thrown in the [try] block is [undefined] or [null], of
    which the [catch] block cannot read the [status].  No error of the
    database, of the validation or of the automation reaches the caller
    otherwise. *)
Theorem trigger_rejects_only_outside_its_try
    (ctx ctx' : Ctx) (s s' : S) (e : Json) :
  trigger ctx s = Rejected e ctx' s' ->
  getDeployedAppID (default Undefined (params ctx !! "instance")) = inl e
  \/ exists prodAppId err,
       getDeployedAppID (default Undefined (params ctx !! "instance"))
       = inr prodAppId
       /\ trigger_try prodAppId ctx s = Rejected err ctx' s'
       /\ (err = Undefined \/ err = Null)
       /\ e = TypeError "read" "status".
Proof.
  unfold trigger, trigger_catch. unfold_handler.
  destruct (getDeployedAppID _) as [e0|prodAppId] eqn:Hid.
  - intros [= <- _ _]. by left.
  - destruct (trigger_try prodAppId ctx s) as [[] c1 s1|err c1 s1] eqn:Htry;
      [done|].
    intros Hcatch. right. exists prodAppId, err. split; [done|].
    destruct err; simpl in Hcatch;
      repeat match type of Hcatch with
             | context [if ?x then _ else _] => destruct x
             end;
      try done; injection Hcatch as <- <- <-; eauto.
Qed.

(** X12.  In the argument of [triggers.externalTrigger], [appId] is the
    identifier of the deployed application whatever the request body has
    under [appId]; [body] is the request body, unless the request body has
    a property [body] of its own, which takes its place; every other
    property is that of the request body. *)
Theorem trigger_payload_properties (request_body prodAppId : Json)
    (key : string) :
  let payload := own_props (trigger_payload request_body prodAppId) in
  payload !! "appId" = Some prodAppId
  /\ payload !! "body"
     = Some (default request_body (own_props request_body !! "body"))
  /\ (key <> "appId" -> key <> "body" ->
      payload !! key = own_props request_body !! key).
Proof.
  simpl. split; [apply lookup_insert_eq|]. split.
  - rewrite lookup_insert_ne by done. rewrite lookup_union.
    rewrite lookup_singleton_eq.
    by destruct (own_props request_body !! "body").
  - intros Ha Hb. rewrite lookup_insert_ne by done. rewrite lookup_union.
    rewrite lookup_singleton_ne by done.
    by destruct (own_props request_body !! key).
Qed.

(** X13.  [save] of a webhook that has an [_id] which the database does
    not have, or cannot get, rejects with the error of [db.get] and puts
    nothing: the state is the one [db.get] left, and the context has no
    new body.  The request body has been given the [appId] of the
    context by then. *)
Theorem save_checks_that_the_webhook_exists
    (ctx : Ctx) (s s' : S) (webhook : gmap string Json) (_id err : Json) :
  request_body ctx = Obj webhook ->
  webhook !! "_id" = Some _id ->
  truthy _id = true ->
  db_get (appId ctx) _id s = (inl err, s') ->
  save ctx s
  = Rejected err
      {| appId := appId ctx; params := params ctx;
         request_body := Obj (<[ "appId" := appId ctx ]> webhook);
         status := status ctx; body := body ctx |}
      s'.
Proof.
  intros Hbody Hid Htruthy Hget. unfold save. unfold_handler.
  rewrite Hbody. simpl. rewrite lookup_insert_ne by done. rewrite Hid. simpl.
  by rewrite Htruthy, Hget.
Qed.

(** X14.  When [save] of an object resolves, it has put the request body
    into the database and answers with it: the document handed to
    [db.put] is the request body with [appId] set to that of the context
    and with [_id] the one it had, if that was truthy and [db.get] found it,
    and else the one [generateWebhookID] made; the state [save] ends in is
    the one [db.put] left; and the body of the response is
    [{ message: "Webhook created successfully", webhook }] where [webhook]
    is that document with [_rev] set to the [rev] of the response of
    [db.put].  The status is not set. *)
Theorem save_answers_with_the_stored_webhook
    (ctx ctx' : Ctx) (s s' : S) (webhook : gmap string Json) :
  request_body ctx = Obj webhook ->
  save ctx s = Resolved tt ctx' s' ->
  exists _id s1 response rev,
    let document := <[ "_id" := _id ]> (<[ "appId" := appId ctx ]> webhook) in
    let stored := Obj (<[ "_rev" := rev ]> document) in
    (if truthy (default Undefined (webhook !! "_id"))
     then webhook !! "_id" = Some _id
          /\ exists found, db_get (appId ctx) _id s = (inr found, s1)
     else generateWebhookID s = (inr _id, s1))
    /\ db_put (appId ctx) (Obj document) s1 = (inr response, s')
    /\ get_prop response "rev" = inr rev
    /\ request_body ctx' = stored
    /\ body ctx' = Obj {[ "message" := Str "Webhook created successfully";
                          "webhook" := stored ]}
    /\ status ctx' = status ctx.
Proof.
  intros Hbody. unfold save. unfold_handler.
  rewrite Hbody. simpl. rewrite lookup_insert_ne by done.
  destruct (truthy (default Undefined (webhook !! "_id"))) eqn:Htruthy.
  - destruct (db_get _ _ s) as [[e1|d1] s1] eqn:Hget; [done|]. simpl.
    destruct (db_put _ _ s1) as [[e2|response] s2] eqn:Hput; [done|]. simpl.
    destruct (get_prop response "rev") as [e3|rev] eqn:Hrev; [done|]. simpl.
    intros [= <- <-].
    destruct (webhook !! "_id") as [_id|] eqn:Hid; [|done].
    exists _id, s1, response, rev. simpl.
    rewrite (insert_id (<["appId":=appId ctx]> webhook) "_id" _id)
      by by rewrite lookup_insert_ne.
    simpl in Hget. by eauto 10.
  - destruct (generateWebhookID s) as [[e0|_id] s0]; [done|]. simpl.
    destruct (db_put _ _ s0) as [[e2|response] s2] eqn:Hput; [done|]. simpl.
    destruct (get_prop response "rev") as [e3|rev] eqn:Hrev; [done|]. simpl.
    intros [= <- <-]. exists _id, s0, response, rev. simpl.
    repeat split; by eauto.
Qed.

End Facts.
End WebhookFacts.

(** * The theorems at work on the sample engine *)

Import Sample.
#[local] Existing Instance driver.
#[local] Existing Instance utils.

(** A catalog of three tables, the second of which cannot be read: the
    driver rejects the definition statement of ["locked"], and the call
    throws there, after ["orders"] and before ["customers"]. *)
Lemma buildSchema_aborts_when_a_table_fails_witness :
  let p := process_of "localhost" one_locked in
  let c := {| pool_id := 0; pool_cfg := clientCfg_of (config_of "localhost") |} in
  let p1 := final_state (connect p) in
  let p2 := final_state (runSQL TABLES_SQL p1) in
  let before := buildSchema_tables "ds1" [JStr "orders"] p2 in
  let p3 := final_state before in
  let p4 := answered c (getDefinitionSQL (JStr "locked")) one_locked p3 in
  buildSchema "ds1" ∅ p
  = Threw (ThrowError "Error" "RequestError: Invalid object name 'locked'.") p4
  /\ tables (this p4) = tables (this p)
  /\ schemaErrors (this p4) = schemaErrors (this p).
Proof.
  intros p c p1 p2 before p3 p4.
  destruct (buildSchema_aborts_when_a_table_fails "ds1" ∅ p p1 p2 p3 c
              (catalog_rows one_locked) [JStr "orders"] (JStr "locked")
              [JStr "customers"] (default ∅ (returned before)))
    as [Hrejected _]; [vm_compute; reflexivity..|].
  apply (Hrejected (RequestError "Invalid object name 'locked'.") one_locked).
  vm_compute. reflexivity.
Defined.

(** C1 does not hold as stated.  The catalog lists ["orders"], ["locked"]
    and ["customers"]; only the metadata of ["locked"] cannot be read (the
    two others are introspected without error).  [buildSchema] throws, and
    leaves no table and no error entry on the object: not the two tables
    and the one entry of the claim. *)
Lemma buildSchema_does_not_isolate_a_failing_table :
  let p := process_of "localhost" one_locked in
  let connected := final_state (connect p) in
  let o := buildSchema "ds1" ∅ p in
  thrown (buildSchema_table "ds1" ∅ (JStr "orders") connected) = None
  /\ thrown (buildSchema_table "ds1" ∅ (JStr "customers") connected) = None
  /\ thrown o
     = Some (ThrowError "Error" "RequestError: Invalid object name 'locked'.")
  /\ tables (this (final_state o)) = ∅
  /\ schemaErrors (this (final_state o)) = ∅.
Proof. by vm_compute. Qed.

(** The table ["orders"] of the sample engine, introspected: an identity
    column [id], which is the primary key, and a column [total]. *)
Example introspecting_orders :
  let p := process_of "localhost" healthy in
  tables (this (final_state (buildSchema "ds1" ∅ p))) !! "orders"
  = Some {| Table._id := "ds1__orders";
            Table.primary := [JStr "id"];
            Table.name := JStr "orders";
            Table.schema :=
              {[ "id" := {| Column.autocolumn := true; Column.name := "id";
                            Column.type := "number" |};
                 "total" := {| Column.autocolumn := false;
                               Column.name := "total";
                               Column.type := "number" |} ]} |}.
Proof. by vm_compute. Qed.

(** A statement the engine rejects: [read] throws the built-in [Error]
    made of the [RequestError]. *)
Lemma crud_rejections_are_wrapped_witness :
  let p := process_of "localhost" healthy in
  read (inr select_missing) p
  = Threw (ThrowError "Error" "RequestError: Invalid object name 'missing'.")
      (final_state (read (inr select_missing) p)).
Proof.
  intros p.
  destruct (crud_rejections_are_wrapped (inr select_missing)
              {| sql := ""; bindings := None |} "" p
              {| pool_id := 0;
                 pool_cfg := clientCfg_of (config_of "localhost") |} eq_refl)
    as (_ & Hrejected & _).
  destruct (Hrejected healthy (RequestError "Invalid object name 'missing'.")
              healthy) as [Hread _]; [vm_compute; reflexivity..|].
  exact Hread.
Defined.

(** C2 does not hold as stated.  The driver rejects a statement with a
    [RequestError] whose message is ["Invalid object name 'missing'."].
    What [read] throws is not an error of a kind [QueryExecutionError]
    that carries that message: it is a built-in [Error], and its message
    is the string form of the driver's error, which starts with the name
    of the driver's error type. *)
Lemma read_throws_a_builtin_Error_of_the_string_form :
  let p := process_of "localhost" healthy in
  let e := ThrowError "Error" "RequestError: Invalid object name 'missing'." in
  answer select_missing healthy
  = inl (ThrowError "RequestError" "Invalid object name 'missing'.")
  /\ thrown (read (inr select_missing) p) = Some e
  /\ e <> ThrowError "QueryExecutionError" "Invalid object name 'missing'."
  /\ message_of e <> Some "Invalid object name 'missing'.".
Proof. by vm_compute. Qed.

(** An [INSERT] without result set: [create] returns the marker. *)
Lemma crud_result_without_recordset_witness :
  let p := process_of "localhost" healthy in
  let query := inl {| sql := insert_order; bindings := Some [JNum 5] |} in
  exists s, create query p = Returned [ {[ "created" := JBool true ]} ] s.
Proof.
  intros p query. exists (final_state (run_given query p)).
  destruct (crud_result_without_recordset query p
              (final_state (run_given query p)) {| recordset := None |}
              "CREATE") as [Hnone _]; [vm_compute; reflexivity|].
  by destruct (Hnone eq_refl) as (Hcreate & _).
Defined.

(** C3 does not hold as stated.  An [UPDATE ... OUTPUT] that matches no
    row makes the driver answer with an empty [recordset]: the driver
    returned no row, and [update] returns the empty array, not a marker. *)
Lemma update_returns_an_empty_recordset :
  let p := process_of "localhost" healthy in
  let query :=
    inl {| sql := update_no_match; bindings := Some [JNum 0; JNum (-1)] |} in
  (recordset <$> returned (run_given query p)) = Some (Some [])
  /\ returned (update query p) = Some [].
Proof. by vm_compute. Qed.

(** The failing input of C4: two integrations of one configuration. *)
Example two_integrations_of_one_configuration :
  let '(o1, w1) := constructor (config_of "localhost") (world_of healthy) in
  let '(o2, w2) := constructor (config_of "localhost") w1 in
  length (pools w2) = 2
  /\ (pool_id <$> pool o1) = Some 0
  /\ (pool_id <$> pool o2) = Some 1.
Proof. by vm_compute. Qed.

(** The same [INSERT] as a [CREATE] and with no operation. *)
Lemma internalQuery_appends_identity_fetch_to_CREATE_witness :
  let c := {| pool_id := 0; pool_cfg := clientCfg_of (config_of "localhost") |} in
  let query := {| sql := insert_order; bindings := Some [JNum 5] |} in
  (exists request,
     sent (final_state (internalQuery (Some c) query (Some "CREATE")
                          (world_of healthy)))
     = [(request, insert_order +:+ "; SELECT SCOPE_IDENTITY() AS id;")])
  /\ (exists request,
        sent (final_state (internalQuery (Some c) query None
                             (world_of healthy)))
        = [(request, insert_order)]).
Proof.
  intros c query.
  destruct (internalQuery_appends_identity_fetch_to_CREATE c query None
              (world_of healthy)) as [Hcreate Hother].
  split; [exact Hcreate | by apply Hother].
Defined.

(** An engine whose catalog statement gives no result set. *)
Lemma buildSchema_fatal_without_table_list_witness :
  let p := process_of "localhost" unreadable in
  let p1 := final_state (connect p) in
  let p2 := final_state (runSQL TABLES_SQL p1) in
  buildSchema "ds1" ∅ p
  = Threw (ThrowString "Unable to get list of tables in database") p2
  /\ tables (this p2) = tables (this p)
  /\ schemaErrors (this p2) = schemaErrors (this p)
  /\ exists request,
       sent (world p2)
       = (sent (world p) ++ [(request, sql (getSqlQuery (inr TABLES_SQL)))])%list.
Proof.
  intros p p1 p2.
  destruct (buildSchema_fatal_without_table_list "ds1" ∅ p p2)
    as (Hfatal & _ & Hframe & _).
  split.
  - apply Hfatal. exists p1. split; vm_compute; reflexivity.
  - apply (Hframe p1); [|left]; vm_compute; reflexivity.
Defined.

(** C6 does not hold as stated.  The table list is fetched: the catalog
    statement returns its one row, and the name ["locked"] is taken from
    it.  The whole call fails all the same, on the metadata of that
    table. *)
Lemma buildSchema_fails_with_the_table_list_fetched :
  let p := process_of "localhost" locked_alone in
  let connected := final_state (connect p) in
  returned (runSQL TABLES_SQL connected)
  = Some (Some [row [("TABLE_NAME", JStr "locked");
                     ("TABLE_TYPE", JStr "BASE TABLE")]])
  /\ candidate_names (catalog_rows locked_alone) = [JStr "locked"]
  /\ thrown (buildSchema "ds1" ∅ p)
     = Some (ThrowError "Error" "RequestError: Invalid object name 'locked'.")
  /\ thrown (buildSchema "ds1" ∅ p)
     <> Some (ThrowString "Unable to get list of tables in database").
Proof. by vm_compute. Qed.

(** Two runs for the datasource ["ds1"]: one on [healthy], one after the
    catalog was reordered and ["customers"] renamed. *)
Lemma buildSchema_ids_are_derived_witness :
  let pA := process_of "localhost" healthy in
  let pB := process_of "localhost" rearranged in
  exists freshA freshB : gmap string Table.t,
    tables (this (final_state (buildSchema "ds1" ∅ pA)))
    = final_tables (finaliseExternalTables freshA ∅)
    /\ tables (this (final_state (buildSchema "ds1" ∅ pB)))
       = final_tables (finaliseExternalTables freshB ∅)
    /\ (forall k t, freshA !! k = Some t ->
          Table._id t = buildExternalTableId "ds1" (Table.name t))
    /\ (forall k t, freshB !! k = Some t ->
          Table._id t = buildExternalTableId "ds1" (Table.name t))
    /\ (forall kA kB tA tB,
          freshA !! kA = Some tA -> freshB !! kB = Some tB ->
          Table.name tA = Table.name tB ->
          Table._id tA = Table._id tB /\ kA = kB).
Proof.
  intros pA pB.
  apply (buildSchema_ids_are_derived "ds1" ∅ ∅ pA _ pB _);
    vm_compute; reflexivity.
Defined.

(** A binding with the characters that end a string and a statement. *)
Lemma internalQuery_binds_positionally_witness :
  let c := {| pool_id := 0; pool_cfg := clientCfg_of (config_of "localhost") |} in
  let query := {| sql := update_no_match; bindings := Some [JNum 0; hostile] |} in
  exists request,
    sent (final_state (internalQuery (Some c) query None (world_of healthy)))
    = [(request, update_no_match)]
    /\ parameters request = [("p0", JNum 0); ("p1", hostile)]
    /\ (forall bs' w', exists request',
          sent (final_state
                  (internalQuery (Some c)
                     {| sql := update_no_match; bindings := bs' |} None w'))
          = (sent w' ++ [(request', update_no_match)])%list)
    /\ (forall i, includes (placeholder i) update_no_match = true ->
                  includes (placeholder i) update_no_match = true).
Proof.
  intros c query.
  exact (internalQuery_binds_positionally c query None [JNum 0; hostile]
           (world_of healthy) eq_refl).
Defined.

(** C8 does not hold as stated.  A query whose text has the value
    written into it, given with that value as a binding, is sent as it is:
    the text the driver gets has the raw value and no placeholder for it.
    And the statements [buildSchema] makes for a table carry its name in
    their text, between quotes, and no parameter: here the table
    [o'brien]. *)
Lemma a_value_written_into_the_text_reaches_the_engine :
  let c := {| pool_id := 0; pool_cfg := clientCfg_of (config_of "localhost") |} in
  let query := {| sql := select_inlined; bindings := Some [hostile] |} in
  let p := process_of "localhost" quoted in
  sent (final_state (internalQuery (Some c) query None (world_of healthy)))
  = [({| req_pool := c; parameters := [("p0", hostile)] |}, select_inlined)]
  /\ includes (ToString hostile) select_inlined = true
  /\ includes (placeholder 0) select_inlined = false
  /\ sent (world (final_state (buildSchema "ds1" ∅ p)))
     = (let request := {| req_pool := c; parameters := [] |} in
        [(request, TABLES_SQL);
         (request, getDefinitionSQL (JStr "o'brien"));
         (request, getConstraintsSQL (JStr "o'brien"));
         (request, getAutoColumnsSQL (JStr "o'brien"))])
  /\ includes "where TABLE_NAME='o'brien'" (getDefinitionSQL (JStr "o'brien"))
     = true.
Proof. by vm_compute. Qed.

(** A catalog that lists ["spt_monitor"]. *)
Lemma buildSchema_excludes_master_tables_witness :
  let p := process_of "localhost" healthy in
  let p' := final_state (buildSchema "ds1" ∅ p) in
  exists fresh : gmap string Table.t,
    tables (this p') = final_tables (finaliseExternalTables fresh ∅)
    /\ schemaErrors (this p') = final_errors (finaliseExternalTables fresh ∅)
    /\ forall d, d ∈ MASTER_TABLES ->
         fresh !! d = None
         /\ forall k t, fresh !! k = Some t -> Table.name t <> JStr d.
Proof.
  intros p p'.
  apply (buildSchema_excludes_master_tables "ds1" ∅ p p').
  vm_compute. reflexivity.
Defined.

(** The failing input of C10: a table with the columns [id] and
    [__proto__].  Its schema has the one entry [id]. *)
Example a_column_named_proto_is_lost :
  let p := process_of "localhost" with_proto in
  ((fun def => prop def "COLUMN_NAME") <$> definition_rows settings)
  = [JStr "id"; JStr "__proto__"]
  /\ (Table.schema
        <$> (tables (this (final_state (buildSchema "ds1" ∅ p))) !! "settings"))
     = Some {[ "id" := {| Column.autocolumn := true; Column.name := "id";
                          Column.type := "number" |} ]}.
Proof. by vm_compute. Qed.

(** The identity column of ["orders"]. *)
Lemma schema_has_the_string_named_columns_witness :
  let schema :=
    schema_of (definition_rows orders)
      (autoColumns_of (autocolumn_rows orders)) in
  exists c,
    schema !! "id" = Some c
    /\ Column.name c = "id"
    /\ (Column.autocolumn c = true
        <-> JStr "id" ∈ autoColumns_of (autocolumn_rows orders) /\ "id" <> "").
Proof.
  intros schema.
  destruct (schema_has_the_string_named_columns (definition_rows orders)
              (autocolumn_rows orders) "id") as [_ Hentry].
  eexists. split; [vm_compute; reflexivity|].
  edestruct Hentry as [Hname Hauto]; [vm_compute; reflexivity|].
  split; [exact Hname | exact Hauto].
Defined.

(** * More of the integration at work on the sample engine *)

(** [connect] on a new object. *)
Lemma connect_makes_the_pool_the_client_witness :
  let p := process_of "localhost" healthy in
  let p1 := final_state (connect p) in
  is_Some (pool (this p))
  /\ client (this p1) = pool (this p)
  /\ pool (this p1) = pool (this p)
  /\ config (this p1) = config (this p)
  /\ tables (this p1) = tables (this p)
  /\ schemaErrors (this p1) = schemaErrors (this p)
  /\ sent (world p1) = sent (world p)
  /\ pools (world p1) = pools (world p)
  /\ (forall p2, connect p1 = Returned tt p2 -> this p2 = this p1).
Proof.
  intros p p1. apply (connect_makes_the_pool_the_client p p1).
  vm_compute. reflexivity.
Defined.

(** A server that cannot be reached. *)
Lemma nothing_runs_without_a_connection_witness :
  let p := process_of "unreachable" healthy in
  let err :=
    ThrowError "ConnectionError" "Failed to connect to unreachable:1433" in
  buildSchema "ds1" ∅ p = Threw (new_Error err) p
  /\ read (inr select_missing) p = Threw (new_Error err) p
  /\ create (inr select_missing) p = Threw (new_Error err) p
  /\ update (inr select_missing) p = Threw (new_Error err) p
  /\ delete (inr select_missing) p = Threw (new_Error err) p
  /\ (forall (QueryJson Result : Type) (_operation : QueryJson -> string)
             queryWithReturning (json : QueryJson),
        query (Result := Result) _operation queryWithReturning json p
        = Threw (new_Error err) p).
Proof.
  intros p err.
  exact (nothing_runs_without_a_connection p
           {| pool_id := 0;
              pool_cfg := clientCfg_of (config_of "unreachable") |}
           err healthy "ds1" ∅ (inr select_missing) eq_refl eq_refl).
Defined.

(** [runSQL] on a new object. *)
Lemma runSQL_needs_a_client_witness :
  let p := process_of "localhost" healthy in
  runSQL TABLES_SQL p = Threw (TypeError_undefined "request") p.
Proof.
  intros p.
  destruct (runSQL_needs_a_client (config_of "localhost") (world_of healthy)
              TABLES_SQL p) as [_ Hthrows].
  by destruct (Hthrows eq_refl).
Defined.

(** One statement, through each of the four methods. *)
Lemma methods_send_the_text_as_given_witness :
  let p := process_of "localhost" healthy in
  let given := inl {| sql := insert_order; bindings := Some [JNum 5] |} in
  exists request,
    sent (world (final_state (read given p))) = [(request, insert_order)]
    /\ sent (world (final_state (create given p))) = [(request, insert_order)]
    /\ sent (world (final_state (update given p))) = [(request, insert_order)]
    /\ sent (world (final_state (delete given p))) = [(request, insert_order)].
Proof.
  intros p given.
  destruct (methods_send_the_text_as_given given p (final_state (connect p)))
    as [request Hsent]; [vm_compute; reflexivity|].
  exists request. exact Hsent.
Defined.

(** The statements of a [buildSchema] on the sample engine: seven. *)
Lemma buildSchema_statements_witness :
  let p := process_of "localhost" healthy in
  let p' := final_state (buildSchema "ds1" ∅ p) in
  exists p1 p2 records,
    connect p = Returned tt p1
    /\ runSQL TABLES_SQL p1 = Returned (Some records) p2
    /\ snd <$> sent (world p')
       = ((snd <$> sent (world p))
          ++ sql (getSqlQuery (inr TABLES_SQL))
             :: flat_map metadata_texts (candidate_names records))%list.
Proof.
  intros p p'. apply (buildSchema_statements "ds1" ∅ p p').
  vm_compute. reflexivity.
Defined.

Lemma buildSchema_introspects_every_candidate_witness :
  let p := process_of "localhost" healthy in
  let p' := final_state (buildSchema "ds1" ∅ p) in
  exists p1 p2 records (fresh : gmap string Table.t),
    connect p = Returned tt p1
    /\ runSQL TABLES_SQL p1 = Returned (Some records) p2
    /\ tables (this p') = final_tables (finaliseExternalTables fresh ∅)
    /\ forall key,
         is_Some (fresh !! key)
         <-> key <> "__proto__"
             /\ exists n, n ∈ candidate_names records /\ ToString n = key.
Proof.
  intros p p'. apply (buildSchema_introspects_every_candidate "ds1" ∅ p p').
  vm_compute. reflexivity.
Defined.

(** A catalog with the tables [settings] and [__proto__]: the one table
    kept is [settings]. *)
Example a_table_named_proto_is_lost :
  let p := process_of "localhost" with_proto in
  candidate_names (catalog_rows with_proto)
  = [JStr "settings"; JStr "__proto__"]
  /\ dom (tables (this (final_state (buildSchema "ds1" ∅ p))))
     = ({[ "settings" ]} : gset string).
Proof. by vm_compute. Qed.

(** A column listed twice, first as [int], then as [decimal]. *)
Lemma schema_takes_the_last_row_witness :
  let column (name type : string) : Obj :=
    row [("COLUMN_NAME", JStr name); ("DATA_TYPE", JStr type)] in
  Column.type
  <$> (schema_of ([column "id" "nvarchar"]
                  ++ column "id" "decimal" :: [column "total" "int"])%list
         [] !! "id")
  = Some "number".
Proof.
  intros column.
  rewrite (schema_takes_the_last_row [column "id" "nvarchar"]
             [column "total" "int"] (column "id" "decimal") [] "id").
  - reflexivity.
  - reflexivity.
  - done.
  - intros d [->|Hd%elem_of_nil]%elem_of_cons; [by vm_compute|done].
Defined.

(** * The webhook controller at work *)

Import Webhook WebhookSample.
#[local] Existing Instance services.

(** A webhook without [action]: reading [target] of [undefined] throws a
    [TypeError], which has no [status]. *)
Lemma trigger_swallows_what_is_not_a_404_witness :
  let ctx := request "wh_1" (Obj {[ "total" := Num 5 ]}) in
  let s := store_of (Obj {[ "_id" := Str "wh_1" ]}) in
  trigger ctx s = Resolved tt ctx s.
Proof.
  intros ctx s.
  apply (WebhookFacts.trigger_swallows_what_is_not_a_404 ctx ctx s s
           (Str "app_1") (TypeError "read" "target") Undefined);
    by vm_compute.
Defined.

(** A webhook whose automation is not in the database. *)
Lemma trigger_answers_a_404_as_not_deployed_witness :
  let ctx := request "wh_1" (Obj {[ "total" := Num 5 ]}) in
  let s := store_of (webhook_doc "au_2") in
  trigger ctx s
  = Resolved tt
      {| appId := appId ctx; params := params ctx;
         request_body := request_body ctx; status := Num 200;
         body := Obj {[ "message" := Str "Application not deployed yet." ]} |}
      s.
Proof.
  intros ctx s.
  apply (WebhookFacts.trigger_answers_a_404_as_not_deployed ctx ctx s s
           (Str "app_1") (http_error 404 "not_found"));
    by vm_compute.
Defined.

(** A request without an instance: [getDeployedAppID] throws. *)
Lemma trigger_rejects_only_outside_its_try_witness :
  let ctx :=
    {| appId := Undefined; params := ∅; request_body := Undefined;
       status := Num 404; body := Undefined |} in
  let s := store_of (webhook_doc "au_1") in
  getDeployedAppID (default Undefined (params ctx !! "instance"))
  = inl (TypeError "read" "replace")
  \/ exists prodAppId err,
       getDeployedAppID (default Undefined (params ctx !! "instance"))
       = inr prodAppId
       /\ trigger_try prodAppId ctx s = Rejected err ctx s
       /\ (err = Undefined \/ err = Null)
       /\ TypeError "read" "replace" = TypeError "read" "status".
Proof.
  intros ctx s.
  apply (WebhookFacts.trigger_rejects_only_outside_its_try ctx ctx s s).
  by vm_compute.
Defined.

(** A request body that has [appId] and [body] of its own. *)
Lemma trigger_payload_properties_witness :
  let request_body :=
    Obj {[ "appId" := Str "other"; "body" := Str "inner"; "total" := Num 5 ]} in
  let payload := own_props (trigger_payload request_body (Str "app_1")) in
  payload !! "appId" = Some (Str "app_1")
  /\ payload !! "body" = Some (Str "inner")
  /\ payload !! "total" = Some (Num 5).
Proof.
  intros request_body payload.
  destruct (WebhookFacts.trigger_payload_properties request_body (Str "app_1")
              "total") as (HappId & Hbody & Hother).
  split; [exact HappId|]. split; [exact Hbody|]. by apply Hother.
Defined.

(** An update of a webhook the database does not have. *)
Lemma save_checks_that_the_webhook_exists_witness :
  let webhook : gmap string Json :=
    {[ "_id" := Str "wh_9"; "name" := Str "orders" ]} in
  let ctx := request "" (Obj webhook) in
  let s := store_of (webhook_doc "au_1") in
  save ctx s
  = Rejected (http_error 404 "not_found")
      {| appId := appId ctx; params := params ctx;
         request_body := Obj (<[ "appId" := appId ctx ]> webhook);
         status := status ctx; body := body ctx |}
      s.
Proof.
  intros webhook ctx s.
  apply (WebhookFacts.save_checks_that_the_webhook_exists ctx s s webhook
           (Str "wh_9")); by vm_compute.
Defined.

(** A new webhook, whose request gives another [appId]. *)
Lemma save_answers_with_the_stored_webhook_witness :
  let webhook : gmap string Json :=
    {[ "name" := Str "orders"; "appId" := Str "other" ]} in
  let ctx := request "" (Obj webhook) in
  let s := store_of (webhook_doc "au_1") in
  let settled := save ctx s in
  exists ctx' s' _id s1 response rev,
    settled = Resolved tt ctx' s'
    /\ let document :=
         <[ "_id" := _id ]> (<[ "appId" := appId ctx ]> webhook) in
       let stored := Obj (<[ "_rev" := rev ]> document) in
       generateWebhookID s = (inr _id, s1)
       /\ db_put (appId ctx) (Obj document) s1 = (inr response, s')
       /\ get_prop response "rev" = inr rev
       /\ request_body ctx' = stored
       /\ body ctx' = Obj {[ "message" := Str "Webhook created successfully";
                             "webhook" := stored ]}
       /\ status ctx' = status ctx.
Proof.
  intros webhook ctx s settled.
  destruct settled as [[] ctx' s'|err ctx' s'] eqn:Hsave; [|by vm_compute in Hsave].
  destruct (WebhookFacts.save_answers_with_the_stored_webhook ctx ctx' s s'
              webhook eq_refl Hsave)
    as (_id & s1 & response & rev & Hid & Hrest).
  by exists ctx', s', _id, s1, response, rev.
Defined.
